(** * The simulation orchestrator of [complex_economies.model]

    A shallow embedding of [ComplexEconomy] (src/complex_economies/model.py):
    the aggregate state of the economy, the per-stage aggregation
    functions and the exit-and-entry algorithm, with the properties the
    specification states about them.

    Conventions of the embedding.
    - Economic scalars are Python [Decimal]s.  They are embedded as exact
      rationals [Q]; numeric equality of decimals ([Decimal('1.0') ==
      Decimal('1.00')]) is [Qeq], written [==].  The rounding of the
      decimal context to 28 significant digits is not modelled.
    - A method of the model is a computation [M A]: it takes the object
      [self], and gives back an outcome (a value or a raised exception)
      together with [self] as the method left it.  Assignments that were
      executed before an exception was raised remain visible.
    - The scheduler's agents are objects shared by reference.  A
      reference is the position of the agent in [schedule.agents]; the
      lists built by [get_group] are lists of references, and attribute
      reads and writes go through the agent list of [self]. *)

From Stdlib Require Import ZArith QArith Qminmax Qround Qabs Qpower Lia Lqa.
From stdpp Require Import base list strings.

Open Scope Q_scope.

(** ** Exceptions and outcomes *)

(** The exceptions the modelled code can raise.  [ZeroDivisionError] is
    the division of Python integers by zero; [DivisionByZero] and
    [InvalidOperation] are the two signals the [decimal] module raises
    for [x / 0] ([x] non-zero) and [0 / 0]. *)
Inductive exn : Type :=
  | ZeroDivisionError
  | DivisionByZero
  | InvalidOperation
  | IndexError
  | ValueError
  | AttributeError.

Inductive outcome (A : Type) : Type :=
  | Return (a : A)
  | Raise (e : exn).
Arguments Return {A} a.
Arguments Raise {A} e.

(** Division errors, as a caller that catches [ArithmeticError] sees
    them. *)
Definition division_error (e : exn) : bool :=
  match e with
  | ZeroDivisionError | DivisionByZero | InvalidOperation => true
  | _ => false
  end.

#[global] Instance outcome_ret : MRet outcome := @Return.
#[global] Instance outcome_bind : MBind outcome :=
  fun A B k o => match o with Return a => k a | Raise e => Raise e end.

(** ** Arithmetic of the scalars *)

(** Modelled from the spec: [utils.misc.d] is not among the sources.  It
    makes the decimal of a number; a decimal is embedded as the rational
    it denotes. *)
Definition d (x : Q) : Q := x.

(** [a / b] on decimals, under the default context that traps division
    by zero. *)
Definition decimal_div (a b : Q) : outcome Q :=
  if Qeq_bool b 0 then
    if Qeq_bool a 0 then Raise InvalidOperation else Raise DivisionByZero
  else Return (a / b).

(** Python's [sum]: starts from the integer [0] and adds from the left. *)
Definition sum (l : list Q) : Q := fold_left Qplus l 0.

(** [len(l)] as a number. *)
Definition len {A} (l : list A) : Q := inject_Z (Z.of_nat (length l)).

(** [total / len(l)], where [total] is the [sum] of a list as long as
    [l]: for the empty list this is the integer division [0 / 0]. *)
Definition div_len {A} (total : Q) (l : list A) : outcome Q :=
  match l with
  | [] => Raise ZeroDivisionError
  | _ => Return (total / len l)
  end.

(** [sum(xs) / len(xs)] *)
Definition mean (xs : list Q) : outcome Q := div_len (sum xs) xs.

(** [max(ids)] on a list of integers; [ValueError] on the empty list. *)
Definition max_of (ids : list Z) : outcome Z :=
  match ids with
  | [] => Raise ValueError
  | i :: rest => Return (fold_left Z.max rest i)
  end.

(** Rounding of a rational to the nearest integer, ties to the even
    neighbour: the [ROUND_HALF_EVEN] mode of the decimal context. *)
Definition round_half_even (x : Q) : Z :=
  let f := Qfloor x in
  match Qcompare (x - inject_Z f) (1 # 2) with
  | Lt => f
  | Gt => (f + 1)%Z
  | Eq => if Z.even f then f else (f + 1)%Z
  end.

(** [round(x, 2)] on a decimal: quantize to two places after the point. *)
Definition round2 (x : Q) : Q := inject_Z (round_half_even (x * 100)) / 100.

(** ** Agents *)

Inductive group : Type := consumption_firm | capital_firm.

Definition group_eqb (g h : group) : bool :=
  match g, h with
  | consumption_firm, consumption_firm | capital_firm, capital_firm => true
  | _, _ => false
  end.

(** [ComplexEconomy.groups] *)
Definition groups : list group := [consumption_firm; capital_firm].

Module Machine.
Record t : Type := Build {
  labour_productivity_coefficient : Q;
  price : Q
}.
End Machine.

(** The attributes of a firm that the model reads or writes.
    [capital_stock] is [None] for a capital-good firm, [machine] is
    [None] for a consumption-good firm (it has no such attribute). *)
Module Firm.
Record t : Type := Build {
  unique_id : Z;
  group : group;
  bankrupt : bool;
  liquid_assets : Q;
  market_share : Q;
  capital_stock : option Q;
  supplier : option Z;
  machine : option Machine.t;
  price : Q;
  competitiveness : Q;
  labour_demand : Q;
  expansion_investment : Q;
  replacement_investment : Q;
  production : Q;
  inventory : Q;
  sales : Q;
  output : Q
}.

(** [firm.bankrupt = b] *)
Definition set_bankrupt (b : bool) (f : t) : t :=
  Build (unique_id f) (group f) b (liquid_assets f) (market_share f)
    (capital_stock f) (supplier f) (machine f) (price f) (competitiveness f)
    (labour_demand f) (expansion_investment f) (replacement_investment f)
    (production f) (inventory f) (sales f) (output f).

(** Replaces the machine object's attributes. *)
Definition set_machine (mc : Machine.t) (f : t) : t :=
  Build (unique_id f) (group f) (bankrupt f) (liquid_assets f)
    (market_share f) (capital_stock f) (supplier f) (Some mc) (price f)
    (competitiveness f) (labour_demand f) (expansion_investment f)
    (replacement_investment f) (production f) (inventory f) (sales f)
    (output f).
End Firm.

(** A reference to an agent: its position in [schedule.agents]. *)
Abbreviation ref := nat (only parsing).

(** ** The random source *)

(** [self.random], the single random source of a run.  The generator is
    an arbitrary sequence of draws, read at a moving position. *)
Record Random : Type := Build_Random {
  draws : nat -> nat;
  position : nat
}.

(** An index below [n] ([n > 0]) and the advanced generator. *)
Definition randbelow (n : nat) (r : Random) : nat * Random :=
  ((draws r (position r) mod n)%nat, Build_Random (draws r) (S (position r))).

(** ** The model object *)

(** [parameters['wage_setting']] *)
Record WageSetting : Type := Build_WageSetting {
  cpi_weight : Q;
  avg_lp_weight : Q;
  unemployment_weight : Q
}.

(** The attributes of a [ComplexEconomy] that the methods of the model
    use.  [agents] is [self.schedule.agents], in insertion order. *)
Record ComplexEconomy : Type := Build_ComplexEconomy {
  social_policy : string;
  labour_supply_growth : Q;
  wage_setting : WageSetting;
  wage_share : Q;
  market_wage : Q;
  cpi : Q;
  avg_labour_prod : Q;
  labour_supply : Q;
  max_capital_labour_share : Q;
  employment : Q;
  consumption : Q;
  unemployment_rate : Q;
  avg_cap_price : Q;
  avg_comp_competitiveness : Q;
  avg_cap_competitiveness : Q;
  average_unit_labour_cost : Q;
  labour_demand : Q;
  unemployment : Q;
  delta_cpi : Q;
  delta_productivity : Q;
  delta_unemployment : Q;
  expansion_investment : Q;
  replacement_investment : Q;
  agg_inventories : Q;
  agg_production : Q;
  agents : list Firm.t;
  random : Random
}.

(** Attribute assignment [self.x = v], one function per assigned
    attribute. *)
Definition set_market_wage (v : Q) (self : ComplexEconomy) : ComplexEconomy :=
  Build_ComplexEconomy (social_policy self) (labour_supply_growth self)
    (wage_setting self) (wage_share self) v (cpi self) (avg_labour_prod self)
    (labour_supply self) (max_capital_labour_share self) (employment self)
    (consumption self) (unemployment_rate self) (avg_cap_price self)
    (avg_comp_competitiveness self) (avg_cap_competitiveness self)
    (average_unit_labour_cost self) (labour_demand self) (unemployment self)
    (delta_cpi self) (delta_productivity self) (delta_unemployment self)
    (expansion_investment self) (replacement_investment self) (agg_inventories
    self) (agg_production self) (agents self) (random self).

Definition set_cpi (v : Q) (self : ComplexEconomy) : ComplexEconomy :=
  Build_ComplexEconomy (social_policy self) (labour_supply_growth self)
    (wage_setting self) (wage_share self) (market_wage self) v (avg_labour_prod
    self) (labour_supply self) (max_capital_labour_share self) (employment self)
    (consumption self) (unemployment_rate self) (avg_cap_price self)
    (avg_comp_competitiveness self) (avg_cap_competitiveness self)
    (average_unit_labour_cost self) (labour_demand self) (unemployment self)
    (delta_cpi self) (delta_productivity self) (delta_unemployment self)
    (expansion_investment self) (replacement_investment self) (agg_inventories
    self) (agg_production self) (agents self) (random self).

Definition set_avg_labour_prod (v : Q) (self : ComplexEconomy) : ComplexEconomy :=
  Build_ComplexEconomy (social_policy self) (labour_supply_growth self)
    (wage_setting self) (wage_share self) (market_wage self) (cpi self) v
    (labour_supply self) (max_capital_labour_share self) (employment self)
    (consumption self) (unemployment_rate self) (avg_cap_price self)
    (avg_comp_competitiveness self) (avg_cap_competitiveness self)
    (average_unit_labour_cost self) (labour_demand self) (unemployment self)
    (delta_cpi self) (delta_productivity self) (delta_unemployment self)
    (expansion_investment self) (replacement_investment self) (agg_inventories
    self) (agg_production self) (agents self) (random self).

Definition set_labour_supply (v : Q) (self : ComplexEconomy) : ComplexEconomy :=
  Build_ComplexEconomy (social_policy self) (labour_supply_growth self)
    (wage_setting self) (wage_share self) (market_wage self) (cpi self)
    (avg_labour_prod self) v (max_capital_labour_share self) (employment self)
    (consumption self) (unemployment_rate self) (avg_cap_price self)
    (avg_comp_competitiveness self) (avg_cap_competitiveness self)
    (average_unit_labour_cost self) (labour_demand self) (unemployment self)
    (delta_cpi self) (delta_productivity self) (delta_unemployment self)
    (expansion_investment self) (replacement_investment self) (agg_inventories
    self) (agg_production self) (agents self) (random self).

Definition set_employment (v : Q) (self : ComplexEconomy) : ComplexEconomy :=
  Build_ComplexEconomy (social_policy self) (labour_supply_growth self)
    (wage_setting self) (wage_share self) (market_wage self) (cpi self)
    (avg_labour_prod self) (labour_supply self) (max_capital_labour_share self)
    v (consumption self) (unemployment_rate self) (avg_cap_price self)
    (avg_comp_competitiveness self) (avg_cap_competitiveness self)
    (average_unit_labour_cost self) (labour_demand self) (unemployment self)
    (delta_cpi self) (delta_productivity self) (delta_unemployment self)
    (expansion_investment self) (replacement_investment self) (agg_inventories
    self) (agg_production self) (agents self) (random self).

Definition set_consumption (v : Q) (self : ComplexEconomy) : ComplexEconomy :=
  Build_ComplexEconomy (social_policy self) (labour_supply_growth self)
    (wage_setting self) (wage_share self) (market_wage self) (cpi self)
    (avg_labour_prod self) (labour_supply self) (max_capital_labour_share self)
    (employment self) v (unemployment_rate self) (avg_cap_price self)
    (avg_comp_competitiveness self) (avg_cap_competitiveness self)
    (average_unit_labour_cost self) (labour_demand self) (unemployment self)
    (delta_cpi self) (delta_productivity self) (delta_unemployment self)
    (expansion_investment self) (replacement_investment self) (agg_inventories
    self) (agg_production self) (agents self) (random self).

Definition set_unemployment_rate (v : Q) (self : ComplexEconomy) : ComplexEconomy :=
  Build_ComplexEconomy (social_policy self) (labour_supply_growth self)
    (wage_setting self) (wage_share self) (market_wage self) (cpi self)
    (avg_labour_prod self) (labour_supply self) (max_capital_labour_share self)
    (employment self) (consumption self) v (avg_cap_price self)
    (avg_comp_competitiveness self) (avg_cap_competitiveness self)
    (average_unit_labour_cost self) (labour_demand self) (unemployment self)
    (delta_cpi self) (delta_productivity self) (delta_unemployment self)
    (expansion_investment self) (replacement_investment self) (agg_inventories
    self) (agg_production self) (agents self) (random self).

Definition set_avg_cap_price (v : Q) (self : ComplexEconomy) : ComplexEconomy :=
  Build_ComplexEconomy (social_policy self) (labour_supply_growth self)
    (wage_setting self) (wage_share self) (market_wage self) (cpi self)
    (avg_labour_prod self) (labour_supply self) (max_capital_labour_share self)
    (employment self) (consumption self) (unemployment_rate self) v
    (avg_comp_competitiveness self) (avg_cap_competitiveness self)
    (average_unit_labour_cost self) (labour_demand self) (unemployment self)
    (delta_cpi self) (delta_productivity self) (delta_unemployment self)
    (expansion_investment self) (replacement_investment self) (agg_inventories
    self) (agg_production self) (agents self) (random self).

Definition set_avg_comp_competitiveness (v : Q) (self : ComplexEconomy) : ComplexEconomy :=
  Build_ComplexEconomy (social_policy self) (labour_supply_growth self)
    (wage_setting self) (wage_share self) (market_wage self) (cpi self)
    (avg_labour_prod self) (labour_supply self) (max_capital_labour_share self)
    (employment self) (consumption self) (unemployment_rate self) (avg_cap_price
    self) v (avg_cap_competitiveness self) (average_unit_labour_cost self)
    (labour_demand self) (unemployment self) (delta_cpi self)
    (delta_productivity self) (delta_unemployment self) (expansion_investment
    self) (replacement_investment self) (agg_inventories self) (agg_production
    self) (agents self) (random self).

Definition set_avg_cap_competitiveness (v : Q) (self : ComplexEconomy) : ComplexEconomy :=
  Build_ComplexEconomy (social_policy self) (labour_supply_growth self)
    (wage_setting self) (wage_share self) (market_wage self) (cpi self)
    (avg_labour_prod self) (labour_supply self) (max_capital_labour_share self)
    (employment self) (consumption self) (unemployment_rate self) (avg_cap_price
    self) (avg_comp_competitiveness self) v (average_unit_labour_cost self)
    (labour_demand self) (unemployment self) (delta_cpi self)
    (delta_productivity self) (delta_unemployment self) (expansion_investment
    self) (replacement_investment self) (agg_inventories self) (agg_production
    self) (agents self) (random self).

Definition set_average_unit_labour_cost (v : Q) (self : ComplexEconomy) : ComplexEconomy :=
  Build_ComplexEconomy (social_policy self) (labour_supply_growth self)
    (wage_setting self) (wage_share self) (market_wage self) (cpi self)
    (avg_labour_prod self) (labour_supply self) (max_capital_labour_share self)
    (employment self) (consumption self) (unemployment_rate self) (avg_cap_price
    self) (avg_comp_competitiveness self) (avg_cap_competitiveness self) v
    (labour_demand self) (unemployment self) (delta_cpi self)
    (delta_productivity self) (delta_unemployment self) (expansion_investment
    self) (replacement_investment self) (agg_inventories self) (agg_production
    self) (agents self) (random self).

Definition set_labour_demand (v : Q) (self : ComplexEconomy) : ComplexEconomy :=
  Build_ComplexEconomy (social_policy self) (labour_supply_growth self)
    (wage_setting self) (wage_share self) (market_wage self) (cpi self)
    (avg_labour_prod self) (labour_supply self) (max_capital_labour_share self)
    (employment self) (consumption self) (unemployment_rate self) (avg_cap_price
    self) (avg_comp_competitiveness self) (avg_cap_competitiveness self)
    (average_unit_labour_cost self) v (unemployment self) (delta_cpi self)
    (delta_productivity self) (delta_unemployment self) (expansion_investment
    self) (replacement_investment self) (agg_inventories self) (agg_production
    self) (agents self) (random self).

Definition set_unemployment (v : Q) (self : ComplexEconomy) : ComplexEconomy :=
  Build_ComplexEconomy (social_policy self) (labour_supply_growth self)
    (wage_setting self) (wage_share self) (market_wage self) (cpi self)
    (avg_labour_prod self) (labour_supply self) (max_capital_labour_share self)
    (employment self) (consumption self) (unemployment_rate self) (avg_cap_price
    self) (avg_comp_competitiveness self) (avg_cap_competitiveness self)
    (average_unit_labour_cost self) (labour_demand self) v (delta_cpi self)
    (delta_productivity self) (delta_unemployment self) (expansion_investment
    self) (replacement_investment self) (agg_inventories self) (agg_production
    self) (agents self) (random self).

Definition set_delta_cpi (v : Q) (self : ComplexEconomy) : ComplexEconomy :=
  Build_ComplexEconomy (social_policy self) (labour_supply_growth self)
    (wage_setting self) (wage_share self) (market_wage self) (cpi self)
    (avg_labour_prod self) (labour_supply self) (max_capital_labour_share self)
    (employment self) (consumption self) (unemployment_rate self) (avg_cap_price
    self) (avg_comp_competitiveness self) (avg_cap_competitiveness self)
    (average_unit_labour_cost self) (labour_demand self) (unemployment self) v
    (delta_productivity self) (delta_unemployment self) (expansion_investment
    self) (replacement_investment self) (agg_inventories self) (agg_production
    self) (agents self) (random self).

Definition set_delta_productivity (v : Q) (self : ComplexEconomy) : ComplexEconomy :=
  Build_ComplexEconomy (social_policy self) (labour_supply_growth self)
    (wage_setting self) (wage_share self) (market_wage self) (cpi self)
    (avg_labour_prod self) (labour_supply self) (max_capital_labour_share self)
    (employment self) (consumption self) (unemployment_rate self) (avg_cap_price
    self) (avg_comp_competitiveness self) (avg_cap_competitiveness self)
    (average_unit_labour_cost self) (labour_demand self) (unemployment self)
    (delta_cpi self) v (delta_unemployment self) (expansion_investment self)
    (replacement_investment self) (agg_inventories self) (agg_production self)
    (agents self) (random self).

Definition set_delta_unemployment (v : Q) (self : ComplexEconomy) : ComplexEconomy :=
  Build_ComplexEconomy (social_policy self) (labour_supply_growth self)
    (wage_setting self) (wage_share self) (market_wage self) (cpi self)
    (avg_labour_prod self) (labour_supply self) (max_capital_labour_share self)
    (employment self) (consumption self) (unemployment_rate self) (avg_cap_price
    self) (avg_comp_competitiveness self) (avg_cap_competitiveness self)
    (average_unit_labour_cost self) (labour_demand self) (unemployment self)
    (delta_cpi self) (delta_productivity self) v (expansion_investment self)
    (replacement_investment self) (agg_inventories self) (agg_production self)
    (agents self) (random self).

Definition set_expansion_investment (v : Q) (self : ComplexEconomy) : ComplexEconomy :=
  Build_ComplexEconomy (social_policy self) (labour_supply_growth self)
    (wage_setting self) (wage_share self) (market_wage self) (cpi self)
    (avg_labour_prod self) (labour_supply self) (max_capital_labour_share self)
    (employment self) (consumption self) (unemployment_rate self) (avg_cap_price
    self) (avg_comp_competitiveness self) (avg_cap_competitiveness self)
    (average_unit_labour_cost self) (labour_demand self) (unemployment self)
    (delta_cpi self) (delta_productivity self) (delta_unemployment self) v
    (replacement_investment self) (agg_inventories self) (agg_production self)
    (agents self) (random self).

Definition set_replacement_investment (v : Q) (self : ComplexEconomy) : ComplexEconomy :=
  Build_ComplexEconomy (social_policy self) (labour_supply_growth self)
    (wage_setting self) (wage_share self) (market_wage self) (cpi self)
    (avg_labour_prod self) (labour_supply self) (max_capital_labour_share self)
    (employment self) (consumption self) (unemployment_rate self) (avg_cap_price
    self) (avg_comp_competitiveness self) (avg_cap_competitiveness self)
    (average_unit_labour_cost self) (labour_demand self) (unemployment self)
    (delta_cpi self) (delta_productivity self) (delta_unemployment self)
    (expansion_investment self) v (agg_inventories self) (agg_production self)
    (agents self) (random self).

Definition set_agg_inventories (v : Q) (self : ComplexEconomy) : ComplexEconomy :=
  Build_ComplexEconomy (social_policy self) (labour_supply_growth self)
    (wage_setting self) (wage_share self) (market_wage self) (cpi self)
    (avg_labour_prod self) (labour_supply self) (max_capital_labour_share self)
    (employment self) (consumption self) (unemployment_rate self) (avg_cap_price
    self) (avg_comp_competitiveness self) (avg_cap_competitiveness self)
    (average_unit_labour_cost self) (labour_demand self) (unemployment self)
    (delta_cpi self) (delta_productivity self) (delta_unemployment self)
    (expansion_investment self) (replacement_investment self) v (agg_production
    self) (agents self) (random self).

Definition set_agg_production (v : Q) (self : ComplexEconomy) : ComplexEconomy :=
  Build_ComplexEconomy (social_policy self) (labour_supply_growth self)
    (wage_setting self) (wage_share self) (market_wage self) (cpi self)
    (avg_labour_prod self) (labour_supply self) (max_capital_labour_share self)
    (employment self) (consumption self) (unemployment_rate self) (avg_cap_price
    self) (avg_comp_competitiveness self) (avg_cap_competitiveness self)
    (average_unit_labour_cost self) (labour_demand self) (unemployment self)
    (delta_cpi self) (delta_productivity self) (delta_unemployment self)
    (expansion_investment self) (replacement_investment self) (agg_inventories
    self) v (agents self) (random self).

Definition set_agents (v : list Firm.t) (self : ComplexEconomy) : ComplexEconomy :=
  Build_ComplexEconomy (social_policy self) (labour_supply_growth self)
    (wage_setting self) (wage_share self) (market_wage self) (cpi self)
    (avg_labour_prod self) (labour_supply self) (max_capital_labour_share self)
    (employment self) (consumption self) (unemployment_rate self) (avg_cap_price
    self) (avg_comp_competitiveness self) (avg_cap_competitiveness self)
    (average_unit_labour_cost self) (labour_demand self) (unemployment self)
    (delta_cpi self) (delta_productivity self) (delta_unemployment self)
    (expansion_investment self) (replacement_investment self) (agg_inventories
    self) (agg_production self) v (random self).

Definition set_random (v : Random) (self : ComplexEconomy) : ComplexEconomy :=
  Build_ComplexEconomy (social_policy self) (labour_supply_growth self)
    (wage_setting self) (wage_share self) (market_wage self) (cpi self)
    (avg_labour_prod self) (labour_supply self) (max_capital_labour_share self)
    (employment self) (consumption self) (unemployment_rate self) (avg_cap_price
    self) (avg_comp_competitiveness self) (avg_cap_competitiveness self)
    (average_unit_labour_cost self) (labour_demand self) (unemployment self)
    (delta_cpi self) (delta_productivity self) (delta_unemployment self)
    (expansion_investment self) (replacement_investment self) (agg_inventories
    self) (agg_production self) (agents self) v.

(** ** Methods as computations on [self] *)

(** A computation takes [self] and gives an outcome and [self] as it was
    left; an exception stops the computation and keeps the assignments
    made so far. *)
Definition M (A : Type) : Type := ComplexEconomy -> outcome A * ComplexEconomy.

Definition ret {A} (a : A) : M A := fun self => (Return a, self).

Definition bind {A B} (c : M A) (k : A -> M B) : M B :=
  fun self =>
    match c self with
    | (Return a, self') => k a self'
    | (Raise e, self') => (Raise e, self')
    end.

#[global] Instance M_ret : MRet M := @ret.
#[global] Instance M_bind : MBind M := fun A B k c => bind c k.

(** The object itself. *)
Definition get : M ComplexEconomy := fun self => (Return self, self).

(** An expression that may raise. *)
Definition lift {A} (o : outcome A) : M A := fun self => (o, self).

(** An attribute assignment. *)
Definition assign (f : ComplexEconomy -> ComplexEconomy) : M unit :=
  fun self => (Return tt, f self).

(** ** Access to the agents *)

(** Placeholder object for a reference outside the agent list; the
    references the model builds always point into the list. *)
Definition no_firm : Firm.t :=
  Firm.Build 0 consumption_firm false 0 0 None None None 0 0 0 0 0 0 0 0 0.

#[global] Instance Firm_inhabited : Inhabited Firm.t := populate no_firm.

(** The object a reference points to. *)
Definition deref (self : ComplexEconomy) (r : ref) : Firm.t := agents self !!! r.

(** References to all agents, in scheduler order. *)
Definition all_agents (self : ComplexEconomy) : list ref :=
  seq 0 (length (agents self)).

(** [get_group(group, include_bankrupt=False)] *)
Definition get_group (g : group) (include_bankrupt : bool)
    (self : ComplexEconomy) : list ref :=
  let firms :=
    List.filter (fun a => group_eqb (Firm.group (deref self a)) g)
                (all_agents self) in
  if include_bankrupt then firms
  else List.filter (fun f => negb (Firm.bankrupt (deref self f))) firms.

(** The list comprehension [[attr(f) for f in firms]]. *)
Definition attrs {A} (attr : Firm.t -> A) (self : ComplexEconomy)
    (firms : list ref) : list A :=
  map (fun f => attr (deref self f)) firms.

(** [f.machine.attr]: a firm without a machine has no such attribute. *)
Definition machine_attr {A} (attr : Machine.t -> A) (f : Firm.t) : outcome A :=
  match Firm.machine f with
  | Some mc => Return (attr mc)
  | None => Raise AttributeError
  end.

(** A list comprehension whose element expression may raise; the first
    exception ends it. *)
Definition comprehension {A B} (e : A -> outcome B) (l : list A) : outcome (list B) :=
  mapM e l.

(** ** Reporting and derived properties *)

(** [compute_gdp(model)] *)
Definition compute_gdp (model : ComplexEconomy) : Q :=
  let consumption_firms := get_group consumption_firm false model in
  let capital_firms := get_group capital_firm false model in
  sum (attrs (fun f => Firm.sales f * Firm.price f) model consumption_firms)
  + sum (attrs (fun f => Firm.output f * Firm.price f) model capital_firms).

(** [investment] property *)
Definition investment (self : ComplexEconomy) : Q :=
  expansion_investment self + replacement_investment self.

(** [max_capital_labour] property *)
Definition max_capital_labour (self : ComplexEconomy) : Q :=
  max_capital_labour_share self * labour_supply self.

(** [capital_labour_demand] property *)
Definition capital_labour_demand (self : ComplexEconomy) : Q :=
  let capital_firms := get_group capital_firm false self in
  sum (attrs Firm.labour_demand self capital_firms).

(** ** Aggregation functions of stages one to four *)

(** [compute_average_price(group, weighted=False)] *)
Definition compute_average_price (g : group) (weighted : bool)
    (self : ComplexEconomy) : outcome Q :=
  let firms := get_group g false self in
  if negb weighted then
    let prices := attrs Firm.price self firms in
    mean prices
  else
    Return (sum (attrs (fun firm => Firm.market_share firm * Firm.price firm)
                       self firms)).

(** [update_average_prices()] *)
Definition update_average_prices : M unit :=
  self ← get;
  new_cpi ← lift (compute_average_price consumption_firm false self);
  delta ← lift (decimal_div (new_cpi - cpi self) (cpi self));
  assign (set_delta_cpi delta);;
  assign (set_cpi new_cpi);;
  self ← get;
  cap_price ← lift (compute_average_price capital_firm false self);
  assign (set_avg_cap_price cap_price).

(** [update_average_labour_productivity()] *)
Definition update_average_labour_productivity : M unit :=
  self ← get;
  let firms := get_group capital_firm false self in
  lpcs ← lift (comprehension
                 (fun f => machine_attr Machine.labour_productivity_coefficient
                                        (deref self f)) firms);
  avg ← lift (div_len (sum lpcs) firms);
  delta ← lift (decimal_div (avg - avg_labour_prod self) (avg_labour_prod self));
  assign (set_delta_productivity delta);;
  assign (set_avg_labour_prod avg).

(** [compute_sector_competitiveness(group)] *)
Definition compute_sector_competitiveness (g : group) (self : ComplexEconomy) : Q :=
  let firms := get_group g false self in
  let comp :=
    sum (attrs (fun f => Firm.competitiveness f * Firm.market_share f) self firms) in
  round2 comp.

(** [update_sector_competitiveness()] *)
Definition update_sector_competitiveness : M unit :=
  self ← get;
  assign (set_avg_comp_competitiveness
            (compute_sector_competitiveness consumption_firm self));;
  self ← get;
  assign (set_avg_cap_competitiveness
            (compute_sector_competitiveness capital_firm self)).

(** [aggregate_investment()] *)
Definition aggregate_investment : M unit :=
  self ← get;
  let firms := get_group consumption_firm false self in
  assign (set_expansion_investment
            (sum (attrs Firm.expansion_investment self firms)));;
  assign (set_replacement_investment
            (sum (attrs Firm.replacement_investment self firms))).

(** [update_labour_supply()] *)
Definition update_labour_supply : M unit :=
  self ← get;
  assign (set_labour_supply (labour_supply self * (1 + labour_supply_growth self))).

(** [aggregate_labour_demand()] *)
Definition aggregate_labour_demand : M unit :=
  self ← get;
  assign (set_labour_demand
            (sum (attrs Firm.labour_demand self (all_agents self)))).

(** [update_employment()] *)
Definition update_employment : M unit :=
  self ← get;
  assign (set_employment (Qmin (labour_demand self) (labour_supply self)));;
  self ← get;
  assign (set_unemployment (Qmax 0 (labour_supply self - employment self)));;
  self ← get;
  rate ← lift (decimal_div (unemployment self) (labour_supply self));
  let delta := rate - unemployment_rate self in
  assign (set_unemployment_rate rate);;
  assign (set_delta_unemployment delta).

(** [update_market_wage()] *)
Definition update_market_wage : M unit :=
  self ← get;
  let psi1 := cpi_weight (wage_setting self) in
  let psi2 := avg_lp_weight (wage_setting self) in
  let psi3 := unemployment_weight (wage_setting self) in
  assign (set_market_wage
            (market_wage self
             * (1 + psi1 * delta_cpi self
                + psi2 * delta_productivity self
                + psi3 * delta_unemployment self))).

(** [compute_consumption()] *)
Definition compute_consumption (self : ComplexEconomy) : Q :=
  let household_consumption := market_wage self * employment self in
  let government_consumption :=
    if String.eqb (social_policy self) "welfare" then
      wage_share self * unemployment self
    else
      wage_share self * market_wage self * labour_supply self in
  household_consumption + government_consumption.

(** [update_consumption()] *)
Definition update_consumption : M unit :=
  self ← get;
  assign (set_consumption (compute_consumption self)).

(** [aggregate_production()] *)
Definition aggregate_production : M unit :=
  self ← get;
  let firms := get_group consumption_firm false self in
  assign (set_agg_production (sum (attrs Firm.production self firms))).

(** [aggregate_inventories()] *)
Definition aggregate_inventories : M unit :=
  self ← get;
  let firms := get_group consumption_firm false self in
  assign (set_agg_inventories (sum (attrs Firm.inventory self firms))).


(** ** Construction, exit and entry *)

Module Parameters.
(** The entries of the [parameters] mapping that the modelled methods
    read.  The sector sizes are integral. *)
Record t : Type := Build {
  n_consumption_firms : Z;
  n_capital_firms : Z;
  social_policy : string;
  labour_supply_growth : Q;
  wage_setting : WageSetting;
  wage_share : Q;
  fix_supplier : bool
}.
End Parameters.

(** [random.choice(seq)] on [self.random] *)
Definition choice (seq : list ref) : M ref :=
  fun self =>
    match seq with
    | [] => (Raise IndexError, self)
    | _ =>
        let (i, r) := randbelow (length seq) (random self) in
        (Return (seq !!! i), set_random r self)
    end.

(** Modelled from the spec: [GroupedActivation.add] is not among the
    sources; the scheduler keeps every agent it was given, and a new
    agent comes last in [schedule.agents]. *)
Definition schedule_add (a : Firm.t) (self : ComplexEconomy) : ComplexEconomy :=
  set_agents (agents self ++ [a]) self.

(** The condition of the [dead_firms] comprehension:
    [f.market_share <= 0 or f.liquid_assets < 0]. *)
Definition is_dead (f : Firm.t) : bool :=
  Qle_bool (Firm.market_share f) 0 || negb (Qle_bool 0 (Firm.liquid_assets f)).

(** [f in firms], on references. *)
Definition contains (f : ref) (firms : list ref) : bool :=
  existsb (Nat.eqb f) firms.

(** The two lists [exit_and_entry] builds for a group before its loop. *)
Definition dead_firms (g : group) (self : ComplexEconomy) : list ref :=
  List.filter (fun f => is_dead (deref self f)) (get_group g false self).

Definition alive_firms (g : group) (self : ComplexEconomy) : list ref :=
  List.filter (fun f => negb (contains f (dead_firms g self)))
              (get_group g false self).

(** [new_firm.machine.attr = v] *)
Definition set_machine_attr (upd : Machine.t -> Machine.t) (f : Firm.t) : outcome Firm.t :=
  match Firm.machine f with
  | Some mc => Return (Firm.set_machine (upd mc) f)
  | None => Raise AttributeError
  end.

Section Collaborators.

(** What the agents module, which is not among the sources,
    contributes: the unit labour cost of a machine, and the values a
    firm constructor gives to the attributes that are not among its
    arguments. *)
Variable compute_unit_labour_cost : Machine.t -> ComplexEconomy -> Q.
Variable new_firm_state : group -> Firm.t.
Variable new_machine : Machine.t.

(** Modelled from the spec: the constructors of the firms are not among
    the sources.  A constructor stores its arguments; the firm is of the
    constructor's group and not bankrupt; a capital-good firm owns a
    machine. *)
Definition ConsumptionGoodFirm (unique_id : Z) (liquid_assets : Q)
    (capital_stock : option Q) (market_share : Q) (supplier : option Z) : Firm.t :=
  let s := new_firm_state consumption_firm in
  Firm.Build unique_id consumption_firm false liquid_assets market_share
    capital_stock supplier None (Firm.price s) (Firm.competitiveness s)
    (Firm.labour_demand s) (Firm.expansion_investment s)
    (Firm.replacement_investment s) (Firm.production s) (Firm.inventory s)
    (Firm.sales s) (Firm.output s).

Definition CapitalGoodFirm (unique_id : Z) (liquid_assets : Q)
    (market_share : Q) (capital_stock : option Q) : Firm.t :=
  let s := new_firm_state capital_firm in
  Firm.Build unique_id capital_firm false liquid_assets market_share
    capital_stock None (Some new_machine) (Firm.price s)
    (Firm.competitiveness s) (Firm.labour_demand s)
    (Firm.expansion_investment s) (Firm.replacement_investment s)
    (Firm.production s) (Firm.inventory s) (Firm.sales s) (Firm.output s).

(** [update_avg_ulc()] *)
Definition update_avg_ulc : M unit :=
  self ← get;
  let capital_firms := get_group capital_firm false self in
  lpcs ← lift (comprehension
                 (fun a => machine_attr (fun mc => compute_unit_labour_cost mc self)
                                        (deref self a)) capital_firms);
  avg ← lift (mean lpcs);
  assign (set_average_unit_labour_cost avg).

(** The new firm of the loop body of [exit_and_entry] (lines 357 to
    370): constructed with the attributes read from [copy_firm], and,
    in the capital sector, given the attributes of its machine. *)
Definition replacement (g : group) (copy_firm : Firm.t) (next_id : Z) : outcome Firm.t :=
  let assets := Firm.liquid_assets copy_firm in
  let market_share := Firm.market_share copy_firm in
  let capital_stock :=
    if group_eqb g consumption_firm then Firm.capital_stock copy_firm else None in
  let new_firm :=
    match g with
    | consumption_firm =>
        ConsumptionGoodFirm next_id assets capital_stock market_share None
    | capital_firm =>
        CapitalGoodFirm next_id assets market_share capital_stock
    end in
  if group_eqb g capital_firm then
    lpc ← machine_attr Machine.labour_productivity_coefficient copy_firm;
    new_firm ← set_machine_attr
                 (fun mc => Machine.Build lpc (Machine.price mc)) new_firm;
    price ← machine_attr Machine.price copy_firm;
    set_machine_attr
      (fun mc => Machine.Build (Machine.labour_productivity_coefficient mc) price)
      new_firm
  else mret new_firm.

(** The body of the loop over [dead_firms] in [exit_and_entry].  The
    Python loop body has no value; the model gives back the reference
    [copy_firm] that was drawn, as a record of the choice. *)
Definition replace (g : group) (alive_firms : list ref) (firm : ref) : M ref :=
  assign (fun self =>
            set_agents (alter (Firm.set_bankrupt true) firm (agents self)) self);;
  copy_firm ← choice alive_firms;
  self ← get;
  top ← lift (max_of (attrs Firm.unique_id self (all_agents self)));
  let next_id := (top + 1)%Z in
  new_firm ← lift (replacement g (deref self copy_firm) next_id);
  assign (schedule_add new_firm);;
  mret copy_firm.

(** One round of the loop over [self.groups] in [exit_and_entry]; the
    value is the list of the references drawn, one per dead firm. *)
Definition exit_and_entry_group (g : group) : M (list ref) :=
  self ← get;
  let dead := dead_firms g self in
  let alive := alive_firms g self in
  mapM (replace g alive) dead.

(** [exit_and_entry()] *)
Definition exit_and_entry : M (list (list ref)) :=
  mapM exit_and_entry_group groups.

(** [ComplexEconomy.stages] *)
Inductive stage : Type :=
  | stage_one
  | stage_two
  | stage_three
  | stage_four
  | stage_five.

Definition stages : list stage :=
  [stage_one; stage_two; stage_three; stage_four; stage_five].

(** A method called for its effect only. *)
Definition discard {A} (c : M A) : M unit := c;; mret tt.

(** [ComplexEconomy.stage_functions] *)
Definition stage_functions (s : stage) : list (M unit) :=
  match s with
  | stage_one =>
      [ update_average_prices;
        update_avg_ulc;
        update_average_labour_productivity;
        update_sector_competitiveness ]
  | stage_two =>
      [ aggregate_investment ]
  | stage_three =>
      [ update_labour_supply;
        aggregate_labour_demand;
        update_employment;
        update_market_wage;
        update_consumption ]
  | stage_four =>
      [ aggregate_production;
        aggregate_inventories ]
  | stage_five =>
      [ discard exit_and_entry ]
  end.

(** Modelled from the spec: [GroupedActivation.step] is not among the
    sources; when the agents have run their hook of a stage, the
    scheduler calls the functions registered for the stage in the order
    of their list. *)
Definition interim_functions (s : stage) : M unit :=
  foldr (fun f rest => f;; rest) (mret tt) (stage_functions s).

(** [distribute_leftover_machines()] *)
Definition distribute_leftover_machines : M unit := mret tt.

(** The loop that creates the consumption-good firms in [__init__],
    with the running [supplier] variable. *)
Definition create_consumption_firms (parameters : Parameters.t)
    (liquid_assets capital_stock market_share : Q) (n : nat)
    (self : ComplexEconomy) : ComplexEconomy :=
  snd (fold_left
         (fun (st : option Z * ComplexEconomy) (i : nat) =>
            let (supplier, self) := st in
            let supplier :=
              if Parameters.fix_supplier parameters then
                if ((Z.of_nat i mod 4 =? 0) && negb (Z.of_nat i =? 0))%Z
                then Z.succ <$> supplier else supplier
              else None in
            let f :=
              ConsumptionGoodFirm
                (Z.of_nat i + Parameters.n_capital_firms parameters)
                liquid_assets (Some capital_stock) market_share supplier in
            (supplier, schedule_add f self))
         (seq 0 n) (Some 0%Z, self)).

(** [ComplexEconomy.__init__].  The object is given in one piece; the
    attributes that Python assigns later in the constructor hold [0]
    until then and are not read before.  The random source made from
    [seed] is passed as such. *)
Definition __init__ (parameters : Parameters.t)
    (market_wage cpi avg_labour_productivity liquid_assets capital_stock
       labour_supply : Q) (seed : Random) : outcome ComplexEconomy :=
  let n_consumption_firms := Parameters.n_consumption_firms parameters in
  let n_capital_firms := Parameters.n_capital_firms parameters in
  max_share ← decimal_div (inject_Z n_capital_firms)
                (inject_Z n_consumption_firms + inject_Z n_capital_firms);
  share_consumption ← decimal_div 1 (inject_Z n_consumption_firms);
  share_capital ← decimal_div 1 (inject_Z n_capital_firms);
  let self :=
    Build_ComplexEconomy
      (Parameters.social_policy parameters)
      (Parameters.labour_supply_growth parameters)
      (Parameters.wage_setting parameters)
      (Parameters.wage_share parameters)
      market_wage cpi avg_labour_productivity labour_supply
      max_share
      labour_supply (* employment *)
      0 (* consumption, assigned next *)
      0 (* unemployment_rate, assigned next *)
      (d 0) (d 0) (d 0) (d 0) (d 0) (d 0) (d 0) (d 0) (d 0) (d 0) (d 0)
  (d 0) (d 0) (* the class attributes *)
      [] seed in
  let self := set_consumption (compute_consumption self) self in
  rate ← decimal_div (unemployment self) (employment self);
  let self := set_unemployment_rate rate self in
  let self :=
    fold_left
      (fun self i =>
         schedule_add (CapitalGoodFirm (Z.of_nat i) liquid_assets share_capital None)
                      self)
      (seq 0 (Z.to_nat n_capital_firms)) self in
  let self :=
    create_consumption_firms parameters liquid_assets capital_stock
      share_consumption (Z.to_nat n_consumption_firms) self in
  mret self.

End Collaborators.

(** ** The live members of a group, by value *)

(** The firms of a group that are not bankrupt, as the specification
    speaks of them: the agents themselves rather than references. *)
Definition live_firms (g : group) (self : ComplexEconomy) : list Firm.t :=
  List.filter (fun a => group_eqb (Firm.group a) g && negb (Firm.bankrupt a))
              (agents self).

(** The unweighted mean of the prices of the live firms of a group. *)
Definition mean_price (g : group) (self : ComplexEconomy) : Q :=
  sum (map Firm.price (live_firms g self)) / len (live_firms g self).

(** The sum over the live firms of a group of competitiveness times
    market share. *)
Definition weighted_competitiveness (g : group) (self : ComplexEconomy) : Q :=
  sum (map (fun f => Firm.competitiveness f * Firm.market_share f)
           (live_firms g self)).

(** The store after the loop over the dead firms [ds] has marked them. *)
Definition mark (ds : list ref) (l : list Firm.t) : list Firm.t :=
  fold_left (fun l d => alter (Firm.set_bankrupt true) d l) ds l.

(** Attributes that marking a firm as bankrupt leaves alone. *)
Definition keeps_bankrupt_aside {A} (attr : Firm.t -> A) : Prop :=
  forall b f, attr (Firm.set_bankrupt b f) = attr f.

(** The largest identifier of a non-empty population. *)
Definition top_id (l : list Firm.t) : Z :=
  match map Firm.unique_id l with
  | [] => 0%Z
  | i :: rest => fold_left Z.max rest i
  end.

(** The [m] identifiers that follow the largest identifier of [l]. *)
Definition fresh_ids (l : list Firm.t) (m : nat) : list Z :=
  map (fun k => (top_id l + 1 + Z.of_nat k)%Z) (seq 0 m).

(** The population [l'] is the population [l], whose firms have kept
    their identifiers, followed by new firms whose identifiers are the
    next integers above the largest identifier of [l]. *)
Definition extended (l l' : list Firm.t) : Prop :=
  exists m : nat,
    (l = [] -> m = 0%nat)
    /\ map Firm.unique_id l' = map Firm.unique_id l ++ fresh_ids l m.

(** The reference that the [k]-th draw from the random source [r]
    selects in [alive]. *)
Definition drawn (alive : list ref) (r : Random) (k : nat) : ref :=
  alive !!! (draws r (k + position r) mod length alive)%nat.

(** The random source after [n] draws. *)
Definition advance (n : nat) (r : Random) : Random :=
  Build_Random (draws r) (n + position r).

(** ** The firms of a new model *)

(** The [i]-th capital-good firm that [__init__] creates, given the
    market share of a capital-good firm. *)
Definition initial_capital_firm (new_firm_state : group -> Firm.t)
    (new_machine : Machine.t) (liquid_assets share : Q) (i : nat) : Firm.t :=
  CapitalGoodFirm new_firm_state new_machine (Z.of_nat i) liquid_assets share None.

(** The [i]-th consumption-good firm that [__init__] creates, its
    supplier written without the running variable of the loop. *)
Definition initial_consumption_firm (new_firm_state : group -> Firm.t)
    (parameters : Parameters.t) (liquid_assets capital_stock share : Q)
    (i : nat) : Firm.t :=
  ConsumptionGoodFirm new_firm_state
    (Z.of_nat i + Parameters.n_capital_firms parameters) liquid_assets
    (Some capital_stock) share
    (if Parameters.fix_supplier parameters then Some (Z.of_nat i / 4)%Z else None).

(** ** Concrete economies *)

Module Sample.

(** A firm of group [g] with the given identifier, bankruptcy flag,
    liquid assets, market share and labour demand. *)
Definition firm (id : Z) (g : group) (b : bool) (assets share demand : Q) : Firm.t :=
  Firm.Build id g b assets share
    (match g with consumption_firm => Some 10 | capital_firm => None end)
    None
    (match g with
     | capital_firm => Some (Machine.Build (3 # 2) 7)
     | consumption_firm => None
     end)
    2 1 demand 0 0 0 0 0 0.

Definition source : Random := Build_Random (fun k => S k) 0.

Definition economy (l : list Firm.t) : ComplexEconomy :=
  Build_ComplexEconomy "welfare" 0 (Build_WageSetting 1 1 1) (1 # 2)
    1 1 1 10 (1 # 2) 10 0 0 0 0 0 0 0 0 0 0 0 0 0 0 0 l source.

(** Two capital-good firms, one of them with negative liquid assets,
    and four consumption-good firms: one without market share, one
    bankrupt since an earlier period. *)
Definition market : list Firm.t :=
  [ firm 0 capital_firm false 5 (1 # 2) 1;
    firm 1 capital_firm false (-1) (1 # 2) 1;
    firm 2 consumption_firm false 5 0 3;
    firm 3 consumption_firm false 4 (1 # 3) 3;
    firm 4 consumption_firm true 4 (1 # 3) 5;
    firm 5 consumption_firm false 6 (2 # 3) 3 ].

(** The same population, the bankrupt firm asking for no labour. *)
Definition market_idle : list Firm.t :=
  [ firm 0 capital_firm false 5 (1 # 2) 1;
    firm 1 capital_firm false (-1) (1 # 2) 1;
    firm 2 consumption_firm false 5 0 3;
    firm 3 consumption_firm false 4 (1 # 3) 3;
    firm 4 consumption_firm true 4 (1 # 3) 0;
    firm 5 consumption_firm false 6 (2 # 3) 3 ].

(** A capital sector whose only live firm has lost its market share. *)
Definition exhausted : list Firm.t :=
  [ firm 0 capital_firm false 5 0 1;
    firm 1 consumption_firm false 4 1 3 ].

Definition new_firm_state (g : group) : Firm.t := firm 0 g false 0 0 0.

Definition new_machine : Machine.t := Machine.Build 1 1.

Definition unit_labour_cost (mc : Machine.t) (model : ComplexEconomy) : Q :=
  market_wage model / Machine.labour_productivity_coefficient mc.

Definition parameters : Parameters.t :=
  Parameters.Build 5 2 "welfare" 0 (Build_WageSetting 1 1 1) (1 # 2) true.

End Sample.

(** ** Proof automation *)

(** Unfolds the sequencing of a method, so that it runs on a given
    object. *)
Ltac run_method :=
  cbv beta iota delta [mbind M_bind bind get assign lift mret M_ret ret].

(** Case analysis on every outcome a run goes through. *)
Ltac split_outcomes :=
  repeat match goal with
    | |- context [match ?o with Return _ => _ | Raise _ => _ end] =>
        let E := fresh "E" in destruct o eqn:E
    end.

(** * Properties *)

(** ** Running a method *)

Lemma decimal_div_nonzero (a b : Q) :
  ~ b == 0 -> decimal_div a b = Return (a / b).
Proof.
  intros Hb. unfold decimal_div.
  destruct (Qeq_bool b 0) eqn:E; [|reflexivity].
  apply Qeq_bool_iff in E. contradiction.
Qed.

Lemma decimal_div_zero (a b : Q) :
  b == 0 -> exists e, decimal_div a b = Raise e /\ division_error e = true.
Proof.
  intros Hb. unfold decimal_div.
  apply Qeq_bool_iff in Hb. rewrite Hb.
  destruct (Qeq_bool a 0); eauto.
Qed.

Lemma decimal_div_zero_zero (b : Q) :
  b == 0 -> decimal_div 0 b = Raise InvalidOperation.
Proof.
  intros Hb. unfold decimal_div.
  apply Qeq_bool_iff in Hb. now rewrite Hb.
Qed.

(** ** References and values *)

(** Reading the agents through the references selected by a predicate
    gives the agents that satisfy it, in scheduler order. *)
Lemma map_filter_refs {A} `{Inhabited A} (P : A -> bool) (l : list A) :
  map (fun i => l !!! i) (List.filter (fun i => P (l !!! i)) (seq 0 (length l)))
  = List.filter P l.
Proof.
  induction l as [|x l IH] using rev_ind; [reflexivity|].
  rewrite length_app, Nat.add_comm. cbn [length plus].
  rewrite seq_S, !List.filter_app, map_app. cbn [List.filter plus].
  rewrite (list_lookup_total_middle l [] x (length l) eq_refl).
  f_equal.
  - rewrite <- IH.
    erewrite List.filter_ext_in.
    + apply map_ext_in. intros i Hi.
      apply List.filter_In in Hi as [Hi _]. apply in_seq in Hi.
      apply lookup_total_app_l. lia.
    + intros i Hi. apply in_seq in Hi. cbv beta.
      rewrite lookup_total_app_l by lia. reflexivity.
  - destruct (P x); [|reflexivity]. cbn [map].
    now rewrite (list_lookup_total_middle l [] x (length l) eq_refl).
Qed.

Lemma deref_all_agents (self : ComplexEconomy) :
  map (deref self) (all_agents self) = agents self.
Proof.
  assert (Hid : forall (A : Type) (l : list A), List.filter (fun _ => true) l = l).
  { intros A l. apply forallb_filter_id, forallb_forall. reflexivity. }
  pose proof (map_filter_refs (fun _ => true) (agents self)) as E.
  now rewrite !Hid in E.
Qed.

Lemma filter_filter {A} (P Q : A -> bool) (l : list A) :
  List.filter Q (List.filter P l) = List.filter (fun a => P a && Q a) l.
Proof.
  induction l as [|x l IH]; [reflexivity|].
  cbn [List.filter]. destruct (P x); cbn [List.filter andb]; [|exact IH].
  destruct (Q x); now rewrite IH.
Qed.

(** The references of [get_group(g)] point to the live firms of [g]. *)
Lemma deref_get_group (g : group) (self : ComplexEconomy) :
  map (deref self) (get_group g false self) = live_firms g self.
Proof.
  unfold get_group, live_firms, all_agents, deref.
  rewrite filter_filter.
  apply (map_filter_refs
           (fun a => group_eqb (Firm.group a) g && negb (Firm.bankrupt a))).
Qed.

Lemma attrs_get_group {A} (attr : Firm.t -> A) (g : group) (self : ComplexEconomy) :
  attrs attr self (get_group g false self) = map attr (live_firms g self).
Proof.
  unfold attrs. rewrite <- deref_get_group, map_map. reflexivity.
Qed.

Lemma attrs_all_agents {A} (attr : Firm.t -> A) (self : ComplexEconomy) :
  attrs attr self (all_agents self) = map attr (agents self).
Proof.
  unfold attrs. rewrite <- (map_map (deref self) attr), deref_all_agents.
  reflexivity.
Qed.

Lemma get_group_nil (g : group) (self : ComplexEconomy) :
  get_group g false self = [] <-> live_firms g self = [].
Proof.
  rewrite <- deref_get_group. split.
  - intros ->. reflexivity.
  - apply map_eq_nil.
Qed.

Lemma live_firms_live (g : group) (self : ComplexEconomy) (a : Firm.t) :
  In a (live_firms g self) <->
  In a (agents self) /\ Firm.group a = g /\ Firm.bankrupt a = false.
Proof.
  unfold live_firms. rewrite List.filter_In, andb_true_iff, negb_true_iff.
  destruct (Firm.group a), g; cbn; intuition congruence.
Qed.

(** ** Employment (stage three) *)

(** C2. When [update_employment] has run, employment is the minimum of
    labour demand and labour supply, unemployment is the maximum of zero
    and labour supply minus employment, the unemployment rate is
    unemployment over labour supply, and [delta_unemployment] is the new
    rate minus the rate held before.  The method completes whenever the
    labour supply is not zero. *)
Theorem update_employment_spec (self : ComplexEconomy) :
  ~ labour_supply self == 0 ->
  exists self',
    update_employment self = (Return tt, self')
    /\ employment self' = Qmin (labour_demand self') (labour_supply self')
    /\ unemployment self' = Qmax 0 (labour_supply self' - employment self')
    /\ unemployment_rate self' = unemployment self' / labour_supply self'
    /\ delta_unemployment self' = unemployment_rate self' - unemployment_rate self
    /\ labour_demand self' = labour_demand self
    /\ labour_supply self' = labour_supply self.
Proof.
  intros Hls.
  unfold update_employment. run_method.
  cbn [labour_supply unemployment unemployment_rate set_unemployment set_employment].
  rewrite decimal_div_nonzero by exact Hls.
  eexists. split; [reflexivity|]. cbn. repeat split; reflexivity.
Qed.

Lemma update_employment_spec_witness :
  exists self',
    update_employment (Sample.economy Sample.market) = (Return tt, self')
    /\ employment self' = Qmin (labour_demand self') (labour_supply self')
    /\ unemployment self' = Qmax 0 (labour_supply self' - employment self')
    /\ unemployment_rate self' = unemployment self' / labour_supply self'
    /\ delta_unemployment self'
       = unemployment_rate self' - unemployment_rate (Sample.economy Sample.market)
    /\ labour_demand self' = labour_demand (Sample.economy Sample.market)
    /\ labour_supply self' = labour_supply (Sample.economy Sample.market).
Proof.
  apply (update_employment_spec (Sample.economy Sample.market)).
  vm_compute. discriminate.
Defined.

(** With no labour supply the rate is undefined and the method raises,
    after employment and unemployment have been assigned. *)
Lemma update_employment_no_supply (self : ComplexEconomy) :
  labour_supply self == 0 ->
  exists e self',
    update_employment self = (Raise e, self')
    /\ division_error e = true
    /\ employment self' = Qmin (labour_demand self) (labour_supply self)
    /\ unemployment_rate self' = unemployment_rate self.
Proof.
  intros Hls.
  unfold update_employment. run_method.
  cbn [labour_supply unemployment unemployment_rate set_unemployment set_employment].
  match goal with
  | |- context [decimal_div ?a ?b] =>
      destruct (decimal_div_zero a b Hls) as (e & -> & He)
  end.
  exists e. eexists. split; [reflexivity|]. cbn. auto.
Qed.

(** What the two equations mean: nobody is employed beyond the supply,
    and the unemployed are exactly those supplied and not employed. *)
Lemma employment_bounds (demand supply : Q) :
  let employment := Qmin demand supply in
  let unemployment := Qmax 0 (supply - employment) in
  employment <= demand /\ employment <= supply
  /\ 0 <= unemployment /\ unemployment == supply - employment.
Proof.
  cbv zeta.
  pose proof (Q.le_min_l demand supply) as Hl.
  pose proof (Q.le_min_r demand supply) as Hr.
  repeat split; try assumption.
  - apply Q.le_max_l.
  - apply Q.max_r. lra.
Qed.

(** The equations of [update_employment] still hold when the model-level
    functions of stage three have all run. *)
Lemma stage_three_employment
    (compute_unit_labour_cost : Machine.t -> ComplexEconomy -> Q)
    (new_firm_state : group -> Firm.t) (new_machine : Machine.t)
    (self : ComplexEconomy) :
  ~ labour_supply self * (1 + labour_supply_growth self) == 0 ->
  exists self',
    interim_functions compute_unit_labour_cost new_firm_state new_machine
      stage_three self = (Return tt, self')
    /\ labour_supply self' = labour_supply self * (1 + labour_supply_growth self)
    /\ labour_demand self' = sum (map Firm.labour_demand (agents self))
    /\ employment self' = Qmin (labour_demand self') (labour_supply self')
    /\ unemployment self' = Qmax 0 (labour_supply self' - employment self')
    /\ unemployment_rate self' = unemployment self' / labour_supply self'
    /\ delta_unemployment self' = unemployment_rate self' - unemployment_rate self
    /\ consumption self' = compute_consumption self'.
Proof.
  intros Hls.
  unfold interim_functions, stage_functions. cbn [foldr].
  unfold update_labour_supply, aggregate_labour_demand,
    update_employment, update_market_wage, update_consumption.
  run_method.
  cbn [labour_supply unemployment unemployment_rate set_unemployment
        set_employment set_labour_demand set_labour_supply].
  rewrite decimal_div_nonzero by exact Hls.
  eexists. split; [reflexivity|]. cbn.
  rewrite <- attrs_all_agents.
  repeat split; reflexivity.
Qed.

(** ** Consumption *)

(** C8. Consumption is household consumption, the market wage times
    employment, plus government consumption: the wage share times
    unemployment under the ["welfare"] policy, and the wage share times
    the market wage times the labour supply under any other policy.
    [update_consumption] stores this value in [consumption] and nothing
    else changes. *)
Theorem compute_consumption_spec (self : ComplexEconomy) :
  compute_consumption self
  = market_wage self * employment self
    + (if decide (social_policy self = "welfare")
       then wage_share self * unemployment self
       else wage_share self * market_wage self * labour_supply self)
  /\ update_consumption self
     = (Return tt, set_consumption (compute_consumption self) self)
  /\ consumption (set_consumption (compute_consumption self) self)
     = compute_consumption self.
Proof.
  unfold compute_consumption, update_consumption. run_method.
  repeat split.
  destruct (decide (social_policy self = "welfare")) as [E|E].
  - rewrite E. reflexivity.
  - apply String.eqb_neq in E. rewrite E. reflexivity.
Qed.

(** ** Average prices (stage one) *)

(** C7. [update_average_prices] sets [cpi] to the unweighted mean of the
    prices of the live consumption-good firms, [delta_cpi] to the
    relative change against the CPI held before, and [avg_cap_price] to
    the unweighted mean of the prices of the live capital-good firms;
    no other attribute changes.  The method completes when both groups
    have a live firm and the CPI held before is not zero. *)
Theorem update_average_prices_spec (self : ComplexEconomy) :
  live_firms consumption_firm self <> [] ->
  live_firms capital_firm self <> [] ->
  ~ cpi self == 0 ->
  update_average_prices self
  = (Return tt,
     set_avg_cap_price (mean_price capital_firm self)
       (set_cpi (mean_price consumption_firm self)
          (set_delta_cpi
             ((mean_price consumption_firm self - cpi self) / cpi self)
             self))).
Proof.
  intros Hcons Hcap Hcpi.
  assert (Hmean : forall g s, agents s = agents self -> live_firms g self <> [] ->
            compute_average_price g false s = Return (mean_price g self)).
  { intros g s Hs Hg. unfold compute_average_price. cbn [negb].
    rewrite attrs_get_group.
    assert (E : live_firms g s = live_firms g self)
      by (unfold live_firms; now rewrite Hs).
    rewrite E. unfold mean, div_len, mean_price, len.
    destruct (live_firms g self) as [|a l]; [contradiction|].
    cbn [map]. now rewrite !length_cons, length_map. }
  unfold update_average_prices. run_method.
  rewrite (Hmean consumption_firm self eq_refl Hcons).
  rewrite decimal_div_nonzero by exact Hcpi.
  erewrite (Hmean capital_firm); [|reflexivity|exact Hcap].
  reflexivity.
Qed.

Lemma update_average_prices_spec_witness :
  let self := Sample.economy Sample.market in
  update_average_prices self
  = (Return tt,
     set_avg_cap_price (mean_price capital_firm self)
       (set_cpi (mean_price consumption_firm self)
          (set_delta_cpi
             ((mean_price consumption_firm self - cpi self) / cpi self)
             self))).
Proof.
  apply (update_average_prices_spec (Sample.economy Sample.market));
    vm_compute; discriminate.
Defined.

(** The mean price of a group is the value that, counted once per live
    firm, gives the sum of their prices. *)
Lemma mean_price_unweighted (g : group) (self : ComplexEconomy) :
  live_firms g self <> [] ->
  mean_price g self * len (live_firms g self)
  == sum (map Firm.price (live_firms g self)).
Proof.
  intros Hne. unfold mean_price.
  assert (Hlen : ~ len (live_firms g self) == 0).
  { unfold len. destruct (live_firms g self); [contradiction|].
    cbn [length]. intros E. apply (Qeq_alt _ 0) in E.
    rewrite Nat2Z.inj_succ in E. unfold Qcompare in E. cbn in E.
    apply Z.compare_eq_iff in E. lia. }
  field. exact Hlen.
Qed.

(** ** Sector competitiveness (stage one) *)

(** Rounding to the nearest integer moves a number by at most a half. *)
Lemma round_half_even_near (x : Q) :
  Qabs (inject_Z (round_half_even x) - x) <= 1 # 2.
Proof.
  unfold round_half_even.
  pose proof (Qfloor_le x) as Hlo.
  pose proof (Qlt_floor x) as Hhi.
  rewrite inject_Z_plus in Hhi. change (inject_Z 1) with 1 in Hhi.
  apply Qabs_Qle_condition.
  destruct (Qcompare_spec (x - inject_Z (Qfloor x)) (1 # 2)) as [E|E|E].
  - destruct (Z.even (Qfloor x));
      [|rewrite inject_Z_plus; change (inject_Z 1) with 1]; lra.
  - lra.
  - rewrite inject_Z_plus. change (inject_Z 1) with 1. lra.
Qed.

(** A number halfway between two integers goes to the even one. *)
Lemma round_half_even_tie (x : Q) :
  x - inject_Z (Qfloor x) == 1 # 2 -> Z.even (round_half_even x) = true.
Proof.
  intros E. unfold round_half_even.
  apply Qeq_alt in E. rewrite E.
  destruct (Z.even (Qfloor x)) eqn:Ev; [exact Ev|].
  rewrite Z.even_add, Ev. reflexivity.
Qed.

(** [round2] gives a number of hundredths, at most half a hundredth
    away. *)
Lemma round2_two_places (x : Q) :
  (exists k : Z, round2 x = inject_Z k / 100)
  /\ Qabs (round2 x - x) <= 1 # 200.
Proof.
  split; [eexists; reflexivity|].
  unfold round2.
  pose proof (round_half_even_near (x * 100)) as H.
  apply Qabs_Qle_condition in H. apply Qabs_Qle_condition.
  set (r := inject_Z (round_half_even (x * 100))) in *.
  assert (E : r / 100 - x == (r - x * 100) / 100) by field.
  rewrite E. clear E.
  destruct H as [H1 H2]. split.
  - apply Qle_shift_div_l; [reflexivity|]. lra.
  - apply Qle_shift_div_r; [reflexivity|]. lra.
Qed.

Example round2_down : round2 (1005 # 1000) == 1.
Proof. reflexivity. Qed.

Example round2_up : round2 (1015 # 1000) == 102 # 100.
Proof. reflexivity. Qed.


(** ** Construction *)

Section Construction.

Variable new_firm_state : group -> Firm.t.
Variable new_machine : Machine.t.
Variable parameters : Parameters.t.
Variables market_wage cpi avg_labour_productivity : Q.
Variables liquid_assets capital_stock : Q.
Variable seed : Random.

Local Abbreviation n_consumption_firms :=
  (Parameters.n_consumption_firms parameters).
Local Abbreviation n_capital_firms := (Parameters.n_capital_firms parameters).
Local Abbreviation construct labour_supply :=
  (__init__ new_firm_state new_machine parameters market_wage cpi
     avg_labour_productivity liquid_assets capital_stock labour_supply seed).

Lemma inject_Z_nonzero (z : Z) : z <> 0%Z -> ~ inject_Z z == 0.
Proof.
  intros Hz E. apply Hz. unfold Qeq in E. cbn in E. lia.
Qed.

Lemma create_consumption_firms_scalars (share : Q) (n : nat) (self : ComplexEconomy) :
  let self' :=
    create_consumption_firms new_firm_state parameters liquid_assets
      capital_stock share n self in
  employment self' = employment self
  /\ unemployment self' = unemployment self
  /\ unemployment_rate self' = unemployment_rate self
  /\ labour_supply self' = labour_supply self.
Proof.
  cbv zeta. unfold create_consumption_firms.
  generalize (Some 0%Z) as supplier. generalize 0%nat as start.
  revert self.
  induction n as [|n IH]; intros self start supplier; [now cbn|].
  cbn [seq fold_left].
  match goal with
  | |- context [fold_left _ _ (?s, schedule_add ?f self)] =>
      destruct (IH (schedule_add f self) (S start) s) as (-> & -> & -> & ->)
  end.
  now cbn.
Qed.

Lemma create_capital_firms_scalars (share : Q) (l : list nat) (self : ComplexEconomy) :
  let self' :=
    fold_left
      (fun self i =>
         schedule_add
           (CapitalGoodFirm new_firm_state new_machine (Z.of_nat i)
              liquid_assets share None) self) l self in
  employment self' = employment self
  /\ unemployment self' = unemployment self
  /\ unemployment_rate self' = unemployment_rate self
  /\ labour_supply self' = labour_supply self.
Proof.
  cbv zeta. revert self.
  induction l as [|i l IH]; intros self; [now cbn|].
  cbn [fold_left]. destruct (IH (schedule_add
    (CapitalGoodFirm new_firm_state new_machine (Z.of_nat i) liquid_assets share None)
    self)) as (-> & -> & -> & ->).
  now cbn.
Qed.

(** C10. Construction needs a non-zero labour supply: with a labour
    supply of zero it fails with a division error, and with any other
    labour supply (and sectors whose sizes can be divided by) the
    constructed model has employment equal to the labour supply, no
    unemployment and an unemployment rate of zero. *)
Theorem init_requires_labour_supply (supply : Q) :
  (supply == 0 ->
   exists e, construct supply = Raise e /\ division_error e = true)
  /\ (~ supply == 0 ->
      n_consumption_firms <> 0%Z -> n_capital_firms <> 0%Z ->
      (n_consumption_firms + n_capital_firms)%Z <> 0%Z ->
      exists self,
        construct supply = Return self
        /\ employment self = supply
        /\ unemployment self = 0
        /\ unemployment_rate self == 0
        /\ labour_supply self = supply).
Proof.
  unfold __init__.
  cbv beta iota delta [mbind outcome_bind mret outcome_ret].
  split.
  - intros Hls.
    destruct (decimal_div (inject_Z n_capital_firms) _) as [ms|e] eqn:E1.
    2:{ exists e. split; [reflexivity|].
        unfold decimal_div in E1.
        destruct (Qeq_bool _ 0); [|discriminate].
        destruct (Qeq_bool _ 0); inversion E1; reflexivity. }
    destruct (decimal_div 1 (inject_Z n_consumption_firms)) as [sc|e] eqn:E2.
    2:{ exists e. split; [reflexivity|].
        unfold decimal_div in E2.
        destruct (Qeq_bool _ 0); [|discriminate].
        destruct (Qeq_bool 1 0); inversion E2; reflexivity. }
    destruct (decimal_div 1 (inject_Z n_capital_firms)) as [sk|e] eqn:E3.
    2:{ exists e. split; [reflexivity|].
        unfold decimal_div in E3.
        destruct (Qeq_bool _ 0); [|discriminate].
        destruct (Qeq_bool 1 0); inversion E3; reflexivity. }
    cbn [unemployment employment set_consumption].
    unfold d. rewrite (decimal_div_zero_zero supply Hls).
    exists InvalidOperation. split; reflexivity.
  - intros Hls Hc Hk Hsum.
    rewrite decimal_div_nonzero.
    2:{ rewrite <- inject_Z_plus. now apply inject_Z_nonzero. }
    rewrite !decimal_div_nonzero by now apply inject_Z_nonzero.
    cbn [unemployment employment set_consumption].
    rewrite decimal_div_nonzero by exact Hls.
    eexists. split; [reflexivity|].
    match goal with
    | |- context [create_consumption_firms _ _ _ _ ?sh ?n ?s] =>
        destruct (create_consumption_firms_scalars sh n s) as (-> & -> & -> & ->)
    end.
    match goal with
    | |- context [fold_left _ ?l ?s] =>
        destruct (create_capital_firms_scalars (1 / inject_Z n_capital_firms) l s)
          as (-> & -> & -> & ->)
    end.
    cbn. repeat split; reflexivity.
Qed.

End Construction.

Lemma init_requires_labour_supply_witness :
  (exists e,
      __init__ Sample.new_firm_state Sample.new_machine Sample.parameters
        1 1 1 100 10 0 Sample.source = Raise e
      /\ division_error e = true)
  /\ (exists self,
        __init__ Sample.new_firm_state Sample.new_machine Sample.parameters
          1 1 1 100 10 50 Sample.source = Return self
        /\ employment self = 50
        /\ unemployment self = 0
        /\ unemployment_rate self == 0
        /\ labour_supply self = 50).
Proof.
  split.
  - apply (init_requires_labour_supply Sample.new_firm_state Sample.new_machine
             Sample.parameters 1 1 1 100 10 Sample.source 0).
    reflexivity.
  - apply (init_requires_labour_supply Sample.new_firm_state Sample.new_machine
             Sample.parameters 1 1 1 100 10 Sample.source 50);
      vm_compute; discriminate.
Defined.

(** ** Which agents an aggregate is computed from *)

(** The aggregates computed through [get_group] are functions of the
    live firms of the group. *)
Lemma aggregates_of_live_firms (self : ComplexEconomy) :
  aggregate_investment self
  = (Return tt,
     set_replacement_investment
       (sum (map Firm.replacement_investment (live_firms consumption_firm self)))
       (set_expansion_investment
          (sum (map Firm.expansion_investment (live_firms consumption_firm self)))
          self))
  /\ aggregate_production self
     = (Return tt,
        set_agg_production
          (sum (map Firm.production (live_firms consumption_firm self))) self)
  /\ aggregate_inventories self
     = (Return tt,
        set_agg_inventories
          (sum (map Firm.inventory (live_firms consumption_firm self))) self)
  /\ capital_labour_demand self
     = sum (map Firm.labour_demand (live_firms capital_firm self))
  /\ compute_gdp self
     = sum (map (fun f => Firm.sales f * Firm.price f)
                (live_firms consumption_firm self))
       + sum (map (fun f => Firm.output f * Firm.price f)
                  (live_firms capital_firm self)).
Proof.
  unfold aggregate_investment, aggregate_production, aggregate_inventories,
    capital_labour_demand, compute_gdp.
  run_method. rewrite !attrs_get_group. repeat split; reflexivity.
Qed.

(** [aggregate_labour_demand] reads every agent of the scheduler. *)
Lemma aggregate_labour_demand_all (self : ComplexEconomy) :
  aggregate_labour_demand self
  = (Return tt,
     set_labour_demand (sum (map Firm.labour_demand (agents self))) self).
Proof.
  unfold aggregate_labour_demand. run_method.
  now rewrite attrs_all_agents.
Qed.

(** C1, at a failing input.  Two economies with the same live firms, in
    which a firm that went bankrupt in an earlier period still carries a
    labour demand of 5 in the one and of 0 in the other: the aggregate
    labour demand is 16 in the first and 11 in the second, while the
    live firms ask for 11. *)
Theorem aggregate_labour_demand_counts_bankrupt :
  let busy := Sample.economy Sample.market in
  let idle := Sample.economy Sample.market_idle in
  (forall g, live_firms g busy = live_firms g idle)
  /\ labour_demand (snd (aggregate_labour_demand busy)) == 16
  /\ labour_demand (snd (aggregate_labour_demand idle)) == 11
  /\ sum (map Firm.labour_demand
              (live_firms consumption_firm busy ++ live_firms capital_firm busy))
     == 11.
Proof.
  cbv zeta. split; [intros []; reflexivity|].
  rewrite !aggregate_labour_demand_all. cbn [snd labour_demand set_labour_demand].
  repeat split; vm_compute; reflexivity.
Qed.

(** ** The agent list under exit and entry *)

Lemma mark_length (ds : list ref) (l : list Firm.t) :
  length (mark ds l) = length l.
Proof.
  revert l. induction ds as [|d ds IH]; intros l; [reflexivity|].
  cbn [mark fold_left]. fold (mark ds (alter (Firm.set_bankrupt true) d l)).
  now rewrite IH, length_alter.
Qed.

Lemma mark_app (ds : list ref) (l news : list Firm.t) :
  Forall (fun d => (d < length l)%nat) ds ->
  mark ds (l ++ news) = mark ds l ++ news.
Proof.
  revert l. induction ds as [|d ds IH]; intros l Hds; [reflexivity|].
  apply Forall_cons in Hds as [Hd Hds].
  cbn [mark fold_left]. rewrite alter_app_l by exact Hd.
  apply IH. now rewrite length_alter.
Qed.

(** A marked store holds, at each position, the firm that was there,
    with its bankruptcy flag set if the position was marked. *)
Lemma mark_lookup (ds : list ref) (l : list Firm.t) (i : nat) :
  mark ds l !! i
  = (fun f => if contains i ds then Firm.set_bankrupt true f else f) <$> l !! i.
Proof.
  revert l. induction ds as [|d ds IH]; intros l.
  - cbn. now destruct (l !! i).
  - cbn [mark fold_left]. fold (mark ds (alter (Firm.set_bankrupt true) d l)).
    rewrite IH. cbn [contains existsb].
    destruct (Nat.eqb_spec i d) as [->|Hne].
    + rewrite list_lookup_alter_eq. cbn [orb].
      destruct (l !! d) as [f|]; [|reflexivity].
      cbn. now destruct (contains d ds).
    + rewrite list_lookup_alter_ne by congruence. reflexivity.
Qed.

Lemma mark_lookup_total (ds : list ref) (l : list Firm.t) (i : nat) :
  (i < length l)%nat ->
  mark ds l !!! i
  = if contains i ds then Firm.set_bankrupt true (l !!! i) else l !!! i.
Proof.
  intros Hi. apply list_lookup_total_correct. rewrite mark_lookup.
  destruct (lookup_lt_is_Some_2 l i Hi) as [f Hf].
  rewrite Hf, (list_lookup_total_correct _ _ _ Hf). reflexivity.
Qed.

Lemma mark_attr {A} (attr : Firm.t -> A) (ds : list ref) (l : list Firm.t) (i : nat) :
  keeps_bankrupt_aside attr ->
  attr (mark ds l !!! i) = attr (l !!! i).
Proof.
  intros Hattr. destruct (Nat.lt_ge_cases i (length l)) as [Hi|Hi].
  - rewrite mark_lookup_total by exact Hi. destruct (contains i ds); auto.
  - rewrite !list_lookup_total_alt, !lookup_ge_None_2;
      rewrite ?mark_length; auto.
Qed.

Lemma mark_map {A} (attr : Firm.t -> A) (ds : list ref) (l : list Firm.t) :
  keeps_bankrupt_aside attr ->
  map attr (mark ds l) = map attr l.
Proof.
  intros Hattr. apply list_eq. intros i.
  change (map attr) with (fmap (M:=list) attr).
  rewrite !list_lookup_fmap, mark_lookup.
  destruct (l !! i); [|reflexivity]. cbn.
  destruct (contains i ds); now rewrite ?Hattr.
Qed.

(** *** The largest identifier *)

Lemma max_of_top_id (l : list Firm.t) :
  l <> [] -> max_of (map Firm.unique_id l) = Return (top_id l).
Proof. destruct l; [contradiction|reflexivity]. Qed.

Lemma fold_max_ge (rest : list Z) (i : Z) :
  (i <= fold_left Z.max rest i)%Z
  /\ Forall (fun j => (j <= fold_left Z.max rest i)%Z) rest.
Proof.
  revert i. induction rest as [|j rest IH]; intros i; cbn [fold_left].
  - split; [lia|constructor].
  - destruct (IH (Z.max i j)) as [H1 H2]. split; [lia|].
    constructor; [lia|exact H2].
Qed.

Lemma top_id_ge (l : list Firm.t) (f : Firm.t) :
  f ∈ l -> (Firm.unique_id f <= top_id l)%Z.
Proof.
  intros Hf. unfold top_id. destruct l as [|a l]; [inversion Hf|].
  cbn [map]. destruct (fold_max_ge (map Firm.unique_id l) (Firm.unique_id a))
    as [H1 H2].
  apply elem_of_cons in Hf as [->|Hf]; [exact H1|].
  rewrite Forall_forall in H2. apply H2.
  apply list_elem_of_fmap. eauto.
Qed.

Lemma top_id_snoc (l : list Firm.t) (n : Firm.t) :
  l <> [] -> top_id (l ++ [n]) = Z.max (top_id l) (Firm.unique_id n).
Proof.
  destruct l as [|a l]; [contradiction|]. intros _.
  unfold top_id. cbn [map app]. rewrite map_app, fold_left_app. reflexivity.
Qed.

Lemma top_id_same_ids (l l' : list Firm.t) :
  map Firm.unique_id l = map Firm.unique_id l' -> top_id l = top_id l'.
Proof. unfold top_id. now intros ->. Qed.

Lemma alter_map {A} (attr : Firm.t -> A) (d : ref) (l : list Firm.t) :
  keeps_bankrupt_aside attr ->
  map attr (alter (Firm.set_bankrupt true) d l) = map attr l.
Proof. intros Hattr. exact (mark_map attr [d] l Hattr). Qed.

(** *** Running a loop *)

Lemma mapM_cons_run {A B} (f : A -> M B) (x : A) (l : list A) (self : ComplexEconomy) :
  mapM f (x :: l) self
  = match f x self with
    | (Raise e, s) => (Raise e, s)
    | (Return y, s) =>
        match mapM f l s with
        | (Raise e, s') => (Raise e, s')
        | (Return ys, s') => (Return (y :: ys), s')
        end
    end.
Proof.
  cbn [mapM]. run_method. destruct (f x self) as [[y|e] s]; [|reflexivity].
  destruct (mapM f l s) as [[ys|e] s']; reflexivity.
Qed.

Lemma advance_advance (n k : nat) (r : Random) :
  advance n (advance k r) = advance (n + k) r.
Proof. unfold advance. cbn. f_equal. lia. Qed.

Lemma drawn_advance (alive : list ref) (r : Random) (k : nat) :
  drawn alive (advance 1 r) k = drawn alive r (S k).
Proof. unfold drawn, advance. cbn. now rewrite Nat.add_succ_r. Qed.

(** Every survivor is the choice of some draw. *)
Lemma drawn_any (alive : list ref) (c : ref) :
  c ∈ alive -> exists r, drawn alive r 0 = c.
Proof.
  intros Hc. apply list_elem_of_lookup in Hc as [i Hi].
  exists (Build_Random (fun _ => i) 0). unfold drawn. cbn.
  rewrite Nat.mod_small by (now apply lookup_lt_Some in Hi).
  now apply list_lookup_total_correct.
Qed.

Lemma drawn_in (alive : list ref) (r : Random) (k : nat) :
  alive <> [] -> drawn alive r k ∈ alive.
Proof.
  intros Hne. unfold drawn. apply list_elem_of_lookup_total_2.
  apply Nat.mod_upper_bound. destruct alive; [contradiction|]. cbn. lia.
Qed.

(** *** The dead firms and the survivors of a group *)

Lemma get_group_spec (g : group) (self : ComplexEconomy) (r : ref) :
  r ∈ get_group g false self <->
  (r < length (agents self))%nat
  /\ Firm.group (deref self r) = g
  /\ Firm.bankrupt (deref self r) = false.
Proof.
  unfold get_group, all_agents.
  rewrite list_elem_of_In, !List.filter_In, in_seq, negb_true_iff.
  destruct (Firm.group (deref self r)), g; cbn; intuition (try congruence; lia).
Qed.

Lemma dead_firms_spec (g : group) (self : ComplexEconomy) (d : ref) :
  d ∈ dead_firms g self <->
  d ∈ get_group g false self /\ is_dead (deref self d) = true.
Proof.
  unfold dead_firms. now rewrite list_elem_of_In, List.filter_In, list_elem_of_In.
Qed.

Lemma contains_spec (r : ref) (l : list ref) : contains r l = true <-> r ∈ l.
Proof.
  unfold contains. rewrite existsb_exists, list_elem_of_In. split.
  - intros (x & Hx & E). apply Nat.eqb_eq in E. now subst.
  - intros Hr. exists r. split; [exact Hr|apply Nat.eqb_refl].
Qed.

Lemma alive_firms_spec (g : group) (self : ComplexEconomy) (c : ref) :
  c ∈ alive_firms g self <->
  c ∈ get_group g false self /\ is_dead (deref self c) = false.
Proof.
  unfold alive_firms.
  rewrite list_elem_of_In, List.filter_In, <- list_elem_of_In, negb_true_iff.
  split; intros [Hc H]; split; try exact Hc.
  - destruct (is_dead (deref self c)) eqn:E; [|reflexivity].
    assert (Hd : c ∈ dead_firms g self) by (now apply dead_firms_spec).
    apply contains_spec in Hd. congruence.
  - destruct (contains c (dead_firms g self)) eqn:E; [|reflexivity].
    apply contains_spec, dead_firms_spec in E as [_ E]. congruence.
Qed.

Lemma get_group_in_range (g : group) (self : ComplexEconomy) :
  Forall (fun r => (r < length (agents self))%nat) (get_group g false self).
Proof. apply Forall_forall. intros r Hr. now apply get_group_spec in Hr. Qed.

Lemma dead_firms_in_range (g : group) (self : ComplexEconomy) :
  Forall (fun r => (r < length (agents self))%nat) (dead_firms g self).
Proof.
  apply Forall_forall. intros r Hr.
  apply dead_firms_spec in Hr as [Hr _]. now apply get_group_spec in Hr.
Qed.

Lemma alive_firms_in_range (g : group) (self : ComplexEconomy) :
  Forall (fun r => (r < length (agents self))%nat) (alive_firms g self).
Proof.
  apply Forall_forall. intros r Hr.
  apply alive_firms_spec in Hr as [Hr _]. now apply get_group_spec in Hr.
Qed.

(** No reference is both dead and alive. *)
Lemma alive_not_dead (g : group) (self : ComplexEconomy) (c : ref) :
  c ∈ alive_firms g self -> c ∉ dead_firms g self.
Proof.
  intros Ha Hd. apply alive_firms_spec in Ha as [_ Ha].
  apply dead_firms_spec in Hd as [_ Hd]. congruence.
Qed.

(** *** A round leaves the other group as it was *)

Lemma filter_refs_app {A} `{Inhabited A} (P : A -> bool) (l news : list A) :
  Forall (fun n => P n = false) news ->
  List.filter (fun i => P ((l ++ news) !!! i)) (seq 0 (length (l ++ news)))
  = List.filter (fun i => P (l !!! i)) (seq 0 (length l)).
Proof.
  intros Hnews. rewrite length_app, seq_app, List.filter_app.
  rewrite <- (app_nil_r (List.filter (fun i => P (l !!! i)) _)). f_equal.
  - apply List.filter_ext_in. intros i Hi. apply in_seq in Hi.
    now rewrite lookup_total_app_l by lia.
  - rewrite <- (List.filter_false (seq (0 + length l) (length news))).
    apply List.filter_ext_in. intros i Hi. apply in_seq in Hi. cbn in Hi.
    rewrite lookup_total_app_r by lia.
    rewrite Forall_forall in Hnews. apply Hnews.
    apply list_elem_of_lookup_total_2. lia.
Qed.

Lemma filter_refs_ext {A} `{Inhabited A} (P : A -> bool) (l1 l2 : list A) :
  length l1 = length l2 ->
  (forall i, (i < length l1)%nat -> P (l1 !!! i) = P (l2 !!! i)) ->
  List.filter (fun i => P (l1 !!! i)) (seq 0 (length l1))
  = List.filter (fun i => P (l2 !!! i)) (seq 0 (length l2)).
Proof.
  intros Hlen HP. rewrite <- Hlen. apply List.filter_ext_in.
  intros i Hi. apply in_seq in Hi. apply HP. lia.
Qed.

Lemma get_group_single (g : group) (self : ComplexEconomy) :
  get_group g false self
  = List.filter
      (fun i => (fun a => group_eqb (Firm.group a) g && negb (Firm.bankrupt a))
                  (agents self !!! i))
      (seq 0 (length (agents self))).
Proof. unfold get_group, all_agents, deref. now rewrite filter_filter. Qed.

Lemma group_eqb_eq (g h : group) : group_eqb g h = true <-> g = h.
Proof. destruct g, h; cbn; intuition congruence. Qed.

Lemma is_dead_set_bankrupt : keeps_bankrupt_aside is_dead.
Proof. now intros b f. Qed.

(** After the round of group [g], in which the dead firms of [g] have
    been marked and firms of [g] have been added, the lists that
    [exit_and_entry] builds for another group are the same as before. *)
Lemma round_other_group (g g' : group) (self self1 : ComplexEconomy)
    (news : list Firm.t) :
  g <> g' ->
  agents self1 = mark (dead_firms g self) (agents self) ++ news ->
  Forall (fun n => Firm.group n = g) news ->
  get_group g' false self1 = get_group g' false self
  /\ dead_firms g' self1 = dead_firms g' self
  /\ alive_firms g' self1 = alive_firms g' self.
Proof.
  intros Hg Hagents Hnews.
  assert (Hgroup : get_group g' false self1 = get_group g' false self).
  { rewrite !get_group_single, Hagents.
    rewrite (filter_refs_app
               (fun a => group_eqb (Firm.group a) g' && negb (Firm.bankrupt a))).
    - apply (filter_refs_ext
               (fun a => group_eqb (Firm.group a) g' && negb (Firm.bankrupt a)));
        [apply mark_length|].
      intros i Hi. rewrite mark_length in Hi.
      rewrite mark_lookup_total by exact Hi.
      destruct (contains i (dead_firms g self)) eqn:E; [|reflexivity].
      apply contains_spec, dead_firms_spec in E as [E _].
      apply get_group_spec in E as (_ & E & _). unfold deref in E.
      cbn. rewrite E.
      destruct (group_eqb g g') eqn:E'; [|reflexivity].
      apply group_eqb_eq in E'. contradiction.
    - eapply Forall_impl; [exact Hnews|]. cbv beta. intros n ->.
      destruct (group_eqb g g') eqn:E'; [|reflexivity].
      apply group_eqb_eq in E'. contradiction. }
  assert (Hdead : dead_firms g' self1 = dead_firms g' self).
  { unfold dead_firms. rewrite Hgroup. apply List.filter_ext_in.
    intros i Hi. apply list_elem_of_In, get_group_spec in Hi as (Hi & _).
    unfold deref. rewrite Hagents, lookup_total_app_l
      by (now rewrite mark_length).
    apply mark_attr, is_dead_set_bankrupt. }
  repeat split; [exact Hgroup|exact Hdead|].
  unfold alive_firms. now rewrite Hgroup, Hdead.
Qed.

(** *** Identifiers of the entrants *)

Lemma top_id_fresh (news : list Firm.t) :
  forall l : list Firm.t,
    l <> [] ->
    (forall k n, news !! k = Some n ->
                 Firm.unique_id n = (top_id l + 1 + Z.of_nat k)%Z) ->
    top_id (l ++ news) = (top_id l + Z.of_nat (length news))%Z.
Proof.
  induction news as [|n news IH]; intros l Hl Hids.
  - rewrite app_nil_r. cbn. lia.
  - assert (Hn : Firm.unique_id n = (top_id l + 1)%Z).
    { rewrite (Hids 0%nat n eq_refl). cbn. lia. }
    assert (Htop : top_id (l ++ [n]) = (top_id l + 1)%Z).
    { rewrite top_id_snoc by exact Hl. lia. }
    change (l ++ n :: news) with (l ++ [n] ++ news).
    rewrite app_assoc, IH.
    + rewrite Htop. cbn [length]. lia.
    + now destruct l.
    + intros k m Hk. rewrite (Hids (S k) m Hk), Htop. lia.
Qed.

Lemma mark_nonempty (ds : list ref) (l : list Firm.t) :
  l <> [] -> mark ds l <> [].
Proof.
  intros Hl E. apply (f_equal length) in E. rewrite mark_length in E.
  destruct l; [contradiction|discriminate].
Qed.

Lemma mark_top_id (ds : list ref) (l : list Firm.t) : top_id (mark ds l) = top_id l.
Proof. apply top_id_same_ids, mark_map. now intros b f. Qed.

Lemma mark_mark (ds ds' : list ref) (l : list Firm.t) :
  mark ds' (mark ds l) = mark (ds ++ ds') l.
Proof. unfold mark. now rewrite fold_left_app. Qed.

(** *** Which firms are marked *)

Lemma is_dead_spec (f : Firm.t) :
  is_dead f = true <-> Firm.market_share f <= 0 \/ Firm.liquid_assets f < 0.
Proof.
  unfold is_dead. rewrite orb_true_iff, negb_true_iff, Qle_bool_iff.
  split; intros [H|H]; auto; right.
  - apply Qnot_le_lt. intros Hle. apply Qle_bool_iff in Hle. congruence.
  - destruct (Qle_bool 0 (Firm.liquid_assets f)) eqn:E; [|reflexivity].
    apply Qle_bool_iff in E. exfalso. apply (Qlt_not_le _ _ H E).
Qed.

Lemma group_cases (g : group) : g = consumption_firm \/ g = capital_firm.
Proof. destruct g; auto. Qed.

(** A position is among the dead firms of the two groups exactly when the
    firm there is live and meets the condition of the comprehension. *)
Lemma contains_dead (self : ComplexEconomy) (i : ref) (f : Firm.t) :
  agents self !! i = Some f ->
  contains i (dead_firms consumption_firm self ++ dead_firms capital_firm self)
  = negb (Firm.bankrupt f) && is_dead f.
Proof.
  intros Hi.
  assert (Hf : deref self i = f) by (now apply list_lookup_total_correct).
  assert (Hlt : (i < length (agents self))%nat) by (now apply lookup_lt_Some in Hi).
  apply eq_true_iff_eq.
  rewrite contains_spec, elem_of_app, !dead_firms_spec, !get_group_spec, Hf.
  rewrite andb_true_iff, negb_true_iff.
  destruct (group_cases (Firm.group f)) as [E|E]; rewrite E;
    intuition congruence.
Qed.

(** *** The exceptions of the other stage functions *)

Lemma decimal_div_raises (a b : Q) (e : exn) :
  decimal_div a b = Raise e -> division_error e = true.
Proof.
  unfold decimal_div. destruct (Qeq_bool b 0); [|discriminate].
  destruct (Qeq_bool a 0); intros [= <-]; reflexivity.
Qed.

Lemma div_len_raises {A} (total : Q) (l : list A) (e : exn) :
  div_len total l = Raise e -> division_error e = true.
Proof. destruct l; cbn; [intros [= <-]; reflexivity|discriminate]. Qed.

Lemma mean_raises (xs : list Q) (e : exn) :
  mean xs = Raise e -> division_error e = true.
Proof. apply div_len_raises. Qed.

Lemma compute_average_price_raises (g : group) (self : ComplexEconomy) (e : exn) :
  compute_average_price g false self = Raise e -> division_error e = true.
Proof. unfold compute_average_price. cbn [negb]. apply mean_raises. Qed.

Lemma comprehension_machine_attr_raises {A} (attr : Firm.t -> Machine.t -> A)
    (self : ComplexEconomy) (firms : list ref) (e : exn) :
  comprehension (fun f => machine_attr (attr (deref self f)) (deref self f)) firms
  = Raise e ->
  e = AttributeError.
Proof.
  unfold comprehension. induction firms as [|f firms IH]; [discriminate|].
  cbn [mapM]. cbv beta iota delta [mbind outcome_bind mret outcome_ret].
  unfold machine_attr at 1. destruct (Firm.machine (deref self f)).
  - destruct (mapM _ firms); [discriminate|]. intros [= <-]. now apply IH.
  - now intros [= <-].
Qed.

(** None of the functions of stages one to four raises [IndexError]:
    their failures are division errors, and a missing machine. *)
Lemma stage_functions_not_index_error
    (compute_unit_labour_cost : Machine.t -> ComplexEconomy -> Q)
    (new_firm_state : group -> Firm.t) (new_machine : Machine.t)
    (s : stage) (f : M unit) (self : ComplexEconomy) :
  s <> stage_five ->
  In f (stage_functions compute_unit_labour_cost new_firm_state new_machine s) ->
  fst (f self) <> Raise IndexError.
Proof.
  intros Hs Hf.
  destruct s; [| | | |contradiction]; cbn in Hf;
    repeat (destruct Hf as [<-|Hf]); try contradiction; try discriminate.
  - unfold update_average_prices. run_method. split_outcomes; cbn [fst];
      try discriminate; intros [= ->];
      match goal with
      | H : _ = Raise IndexError |- _ =>
          first [ apply decimal_div_raises in H
                | apply compute_average_price_raises in H ];
          discriminate
      end.
  - unfold update_avg_ulc. run_method. split_outcomes; cbn [fst];
      try discriminate; intros [= ->];
      match goal with
      | H : _ = Raise IndexError |- _ =>
          first [ apply mean_raises in H
                | apply (comprehension_machine_attr_raises
                           (fun _ mc => compute_unit_labour_cost mc self)) in H ];
          discriminate
      end.
  - unfold update_average_labour_productivity. run_method.
    split_outcomes; cbn [fst]; try discriminate; intros [= ->];
      match goal with
      | H : _ = Raise IndexError |- _ =>
          first [ apply decimal_div_raises in H
                | apply div_len_raises in H
                | apply (comprehension_machine_attr_raises
                           (fun _ => Machine.labour_productivity_coefficient))
                    in H ];
          discriminate
      end.
  - unfold update_employment. run_method. split_outcomes; cbn [fst];
      try discriminate; intros [= ->];
      match goal with
      | H : _ = Raise IndexError |- _ =>
          apply decimal_div_raises in H; discriminate
      end.
Qed.

(** *** Populations that grow by fresh identifiers *)

Lemma extended_refl (l : list Firm.t) : extended l l.
Proof. exists 0%nat. split; [reflexivity|]. cbn. now rewrite app_nil_r. Qed.

Lemma fresh_ids_S (l : list Firm.t) (m : nat) :
  fresh_ids l (S m) = fresh_ids l m ++ [(top_id l + 1 + Z.of_nat m)%Z].
Proof. unfold fresh_ids. now rewrite seq_S, map_app. Qed.

(** The largest identifier of an extended population. *)
Lemma extended_top_id (l l' : list Firm.t) (m : nat) :
  l <> [] ->
  map Firm.unique_id l' = map Firm.unique_id l ++ fresh_ids l m ->
  top_id l' = (top_id l + Z.of_nat m)%Z.
Proof.
  intros Hl. revert l'. induction m as [|m IH]; intros l' Hids.
  - cbn in Hids. rewrite app_nil_r in Hids.
    rewrite (top_id_same_ids _ _ Hids). lia.
  - rewrite fresh_ids_S, app_assoc in Hids.
    destruct l' as [|n l' _] using rev_ind.
    { destruct (map Firm.unique_id l ++ fresh_ids l m); discriminate. }
    rewrite map_app in Hids. apply app_inj_tail in Hids as [Hids Hn].
    assert (Hl' : l' <> []).
    { intros ->. destruct l; [contradiction|discriminate]. }
    rewrite top_id_snoc, (IH l' Hids), Hn by exact Hl'. lia.
Qed.

Lemma extended_same_ids (l0 l l' : list Firm.t) :
  extended l0 l ->
  map Firm.unique_id l' = map Firm.unique_id l ->
  extended l0 l'.
Proof. intros (m & Hm & Hids) E. exists m. now rewrite E. Qed.

Lemma extended_snoc (l0 l : list Firm.t) (n : Firm.t) :
  l <> [] -> extended l0 l ->
  Firm.unique_id n = (top_id l + 1)%Z ->
  extended l0 (l ++ [n]).
Proof.
  intros Hl (m & Hm & Hids) Hn.
  assert (Hl0 : l0 <> []).
  { intros ->. rewrite (Hm eq_refl) in Hids. cbn in Hids.
    destruct l; [contradiction|discriminate]. }
  exists (S m). split; [intros ->; contradiction|].
  rewrite map_app, Hids, fresh_ids_S, app_assoc. cbn [map]. repeat f_equal.
  rewrite Hn, (extended_top_id l0 l m Hl0 Hids). lia.
Qed.

(** In an extended population, a firm that was added has an identifier
    above that of every firm before it. *)
Lemma extended_increasing (l l' : list Firm.t) (i j : nat) (a b : Firm.t) :
  extended l l' ->
  (i < j)%nat -> (length l <= j)%nat ->
  l' !! i = Some a -> l' !! j = Some b ->
  (Firm.unique_id a < Firm.unique_id b)%Z
  /\ Firm.unique_id b = (top_id l + 1 + Z.of_nat (j - length l))%Z.
Proof.
  intros (m & _ & Hids) Hij Hj Ha Hb.
  assert (Hfresh : forall k n, (length l <= k)%nat -> l' !! k = Some n ->
            Firm.unique_id n = (top_id l + 1 + Z.of_nat (k - length l))%Z).
  { intros k n Hk Hn.
    assert (E : map Firm.unique_id l' !! k = Some (Firm.unique_id n)).
    { change (map ?f ?x) with (f <$> x). now rewrite list_lookup_fmap, Hn. }
    rewrite Hids, lookup_app_r in E by (now rewrite length_map).
    rewrite length_map in E. unfold fresh_ids in E.
    change (map ?f ?x) with (f <$> x) in E.
    rewrite list_lookup_fmap in E.
    destruct (seq 0 m !! (k - length l)%nat) as [k'|] eqn:Ek; [|discriminate].
    apply lookup_seq in Ek as [-> _]. cbn in E. now injection E as ->. }
  split; [|now apply Hfresh].
  rewrite (Hfresh j b Hj Hb).
  destruct (Nat.lt_ge_cases i (length l)) as [Hi|Hi].
  - assert (E : map Firm.unique_id l' !! i = Some (Firm.unique_id a)).
    { change (map ?f ?x) with (f <$> x). now rewrite list_lookup_fmap, Ha. }
    rewrite Hids, lookup_app_l in E by (now rewrite length_map).
    change (map ?f ?x) with (f <$> x) in E.
    rewrite list_lookup_fmap in E.
    destruct (l !! i) as [a0|] eqn:Ea0; [|discriminate].
    cbn in E. injection E as E. rewrite <- E.
    apply list_elem_of_lookup_2, top_id_ge in Ea0. lia.
  - rewrite (Hfresh i a Hi Ha). lia.
Qed.

(** ** Exit and entry *)

Section ExitAndEntry.

Variable compute_unit_labour_cost : Machine.t -> ComplexEconomy -> Q.
Variable new_firm_state : group -> Firm.t.
Variable new_machine : Machine.t.

Local Abbreviation replacement := (replacement new_firm_state new_machine).
Local Abbreviation replace := (replace new_firm_state new_machine).
Local Abbreviation exit_and_entry_group :=
  (exit_and_entry_group new_firm_state new_machine).
Local Abbreviation exit_and_entry := (exit_and_entry new_firm_state new_machine).

(** *** The new firm *)

Lemma replacement_consumption (src : Firm.t) (id : Z) :
  replacement consumption_firm src id
  = Return (ConsumptionGoodFirm new_firm_state id (Firm.liquid_assets src)
              (Firm.capital_stock src) (Firm.market_share src) None).
Proof. reflexivity. Qed.

Lemma replacement_capital (src : Firm.t) (id : Z) :
  replacement capital_firm src id
  = match Firm.machine src with
    | Some mc =>
        Return (Firm.set_machine
                  (Machine.Build (Machine.labour_productivity_coefficient mc)
                                 (Machine.price mc))
                  (CapitalGoodFirm new_firm_state new_machine id
                     (Firm.liquid_assets src) (Firm.market_share src) None))
    | None => Raise AttributeError
    end.
Proof.
  unfold replacement, machine_attr. cbn [group_eqb].
  cbv beta iota delta [mbind outcome_bind mret outcome_ret].
  destruct (Firm.machine src); reflexivity.
Qed.

(** What a new firm takes from the firm it copies. *)
Lemma replacement_clone (g : group) (src n : Firm.t) (id : Z) :
  replacement g src id = Return n ->
  Firm.unique_id n = id
  /\ Firm.group n = g
  /\ Firm.bankrupt n = false
  /\ Firm.liquid_assets n = Firm.liquid_assets src
  /\ Firm.market_share n = Firm.market_share src
  /\ (g = consumption_firm -> Firm.capital_stock n = Firm.capital_stock src)
  /\ (g = capital_firm ->
      exists mc mc',
        Firm.machine src = Some mc /\ Firm.machine n = Some mc'
        /\ Machine.labour_productivity_coefficient mc'
           = Machine.labour_productivity_coefficient mc
        /\ Machine.price mc' = Machine.price mc).
Proof.
  destruct g.
  - rewrite replacement_consumption. intros [= <-]. cbn.
    repeat split; try reflexivity. discriminate.
  - rewrite replacement_capital. destruct (Firm.machine src) as [mc|] eqn:E;
      [|discriminate].
    intros [= <-]. cbn. repeat split; try reflexivity; [discriminate|].
    intros _. eauto 10.
Qed.

Lemma replacement_set_bankrupt (g : group) (b : bool) (src : Firm.t) (id : Z) :
  replacement g (Firm.set_bankrupt b src) id = replacement g src id.
Proof. reflexivity. Qed.

Lemma replacement_total (g : group) (src : Firm.t) (id : Z) :
  (g = capital_firm -> is_Some (Firm.machine src)) ->
  exists n, replacement g src id = Return n.
Proof.
  destruct g; intros Hm.
  - rewrite replacement_consumption. eauto.
  - rewrite replacement_capital. destruct (Hm eq_refl) as [mc ->]. eauto.
Qed.

Lemma replacement_raises (g : group) (src : Firm.t) (id : Z) (e : exn) :
  replacement g src id = Raise e -> e = AttributeError.
Proof.
  destruct g.
  - rewrite replacement_consumption. discriminate.
  - rewrite replacement_capital. destruct (Firm.machine src); congruence.
Qed.

(** *** One pass through the loop body *)

Lemma replace_run (g : group) (alive : list ref) (d : ref) (self : ComplexEconomy) :
  replace g alive d self
  = let marked := alter (Firm.set_bankrupt true) d (agents self) in
    match alive with
    | [] => (Raise IndexError, set_agents marked self)
    | _ =>
        let c := drawn alive (random self) 0 in
        let self' :=
          set_random (advance 1 (random self)) (set_agents marked self) in
        match max_of (map Firm.unique_id marked) with
        | Raise e => (Raise e, self')
        | Return top =>
            match replacement g (marked !!! c) (top + 1) with
            | Raise e => (Raise e, self')
            | Return n => (Return c, set_agents (marked ++ [n]) self')
            end
        end
    end.
Proof.
  unfold replace. run_method. unfold choice.
  destruct alive as [|a alive]; [reflexivity|].
  cbv zeta. cbn [randbelow random set_agents].
  rewrite attrs_all_agents. cbn [agents set_random set_agents].
  destruct (max_of _) as [top|e]; [|reflexivity].
  unfold deref. cbn [agents set_random set_agents].
  destruct (replacement _ _ _) as [n|e]; reflexivity.
Qed.

(** Whatever its outcome, a pass keeps the identifiers of the firms and
    gives a firm that it adds the identifier after the largest one. *)
Lemma replace_extended (g : group) (alive : list ref) (d : ref)
    (self self' : ComplexEconomy) (o : outcome ref) (l0 : list Firm.t) :
  (d < length (agents self))%nat ->
  extended l0 (agents self) ->
  replace g alive d self = (o, self') ->
  extended l0 (agents self')
  /\ (length (agents self) <= length (agents self'))%nat.
Proof.
  intros Hd Hext. rewrite replace_run. cbv zeta.
  set (marked := alter (Firm.set_bankrupt true) d (agents self)).
  assert (Hids : map Firm.unique_id marked = map Firm.unique_id (agents self))
    by (apply alter_map; now intros b f).
  assert (Hlen : length marked = length (agents self)) by apply length_alter.
  assert (Hmarked : extended l0 marked) by (now apply (extended_same_ids l0 (agents self))).
  assert (Hne : marked <> []).
  { intros E. rewrite E in Hlen. cbn in Hlen. lia. }
  destruct alive as [|a0 alive0].
  { intros [= <- <-]. cbn [agents set_agents]. split; [exact Hmarked|lia]. }
  rewrite (max_of_top_id marked Hne).
  destruct (replacement g _ _) as [n|e] eqn:En; intros [= <- <-];
    cbn [agents set_agents set_random].
  - split; [|rewrite length_app; lia].
    apply extended_snoc; [exact Hne|exact Hmarked|].
    now apply replacement_clone in En.
  - split; [exact Hmarked|lia].
Qed.

Lemma replace_loop_extended (g : group) (alive : list ref) (ds : list ref) :
  forall (self self' : ComplexEconomy) (o : outcome (list ref)) (l0 : list Firm.t),
    Forall (fun d => (d < length (agents self))%nat) ds ->
    extended l0 (agents self) ->
    mapM (replace g alive) ds self = (o, self') ->
    extended l0 (agents self').
Proof.
  induction ds as [|d ds IH]; intros self self' o l0 Hds Hext.
  - now intros [= <- <-].
  - apply Forall_cons in Hds as [Hd Hds]. rewrite mapM_cons_run.
    destruct (replace g alive d self) as [[c|e] self1] eqn:Estep;
      destruct (replace_extended g alive d self self1 _ l0 Hd Hext Estep)
        as [Hext1 Hlen1].
    + destruct (mapM (replace g alive) ds self1) as [[cs|e] self2] eqn:Erest;
        intros [= <- <-];
        (eapply (IH self1); [|exact Hext1|exact Erest]);
        (eapply Forall_impl; [exact Hds|]; cbv beta; intros; lia).
    + now intros [= <- <-].
Qed.

(** *** The loop over the dead firms *)

(** What a completed loop has done: the dead firms are marked, one new
    firm per dead firm stands at the end of the agent list, each built
    from the survivor that the draw selected, with the identifiers that
    follow the largest one; nothing but the agent list and the random
    source has changed. *)
Lemma replace_loop_inv (g : group) (alive : list ref) (ds : list ref) :
  forall (self self' : ComplexEconomy) (picks : list ref),
    Forall (fun d => (d < length (agents self))%nat) ds ->
    Forall (fun c => (c < length (agents self))%nat) alive ->
    mapM (replace g alive) ds self = (Return picks, self') ->
    exists news,
      self' = set_random (advance (length ds) (random self))
                (set_agents (mark ds (agents self) ++ news) self)
      /\ length news = length ds
      /\ (ds <> [] -> alive <> [])
      /\ picks = map (drawn alive (random self)) (seq 0 (length ds))
      /\ (forall k c n,
            picks !! k = Some c -> news !! k = Some n ->
            replacement g (agents self !!! c)
              (top_id (agents self) + 1 + Z.of_nat k) = Return n).
Proof.
  induction ds as [|d ds IH]; intros self self' picks Hds Halive Hrun.
  - cbn in Hrun. injection Hrun as <- <-. exists [].
    repeat split; try reflexivity; try congruence.
    + assert (E0 : advance 0 (random self) = random self)
        by (now destruct (random self)).
      cbn [length mark fold_left]. rewrite E0, app_nil_r. now destruct self.
    + intros k c n Hk. now rewrite lookup_nil in Hk.
  - apply Forall_cons in Hds as [Hd Hds].
    rewrite mapM_cons_run, replace_run in Hrun. cbv zeta in Hrun.
    destruct alive as [|a0 alive0] eqn:Ealive; [discriminate|].
    rewrite <- Ealive in *.
    assert (Hne : alive <> []) by (rewrite Ealive; discriminate).
    set (marked := alter (Firm.set_bankrupt true) d (agents self)) in *.
    assert (Hlen : length marked = length (agents self))
      by apply length_alter.
    assert (Hnonempty : marked <> []).
    { intros E. rewrite E in Hlen. cbn in Hlen. lia. }
    rewrite (max_of_top_id marked Hnonempty) in Hrun.
    assert (Htop : top_id marked = top_id (agents self)).
    { apply top_id_same_ids, alter_map. now intros b f. }
    set (c0 := drawn alive (random self) 0) in *.
    assert (Hc0 : (c0 < length (agents self))%nat).
    { rewrite Forall_forall in Halive. apply Halive.
      now apply drawn_in. }
    destruct (replacement g (marked !!! c0) (top_id marked + 1)) as [n0|e] eqn:En0;
      [|discriminate].
    set (self1 := set_agents (marked ++ [n0]) _) in Hrun.
    destruct (mapM (replace g alive) ds self1) as [[picks'|e] self2] eqn:Erest;
      [|discriminate].
    injection Hrun as <- <-.
    destruct (IH self1 self2 picks') as (news & -> & Hnews & _ & -> & Hclone).
    { subst self1. cbn [agents set_agents set_random]. rewrite length_app.
      eapply Forall_impl; [exact Hds|]. cbv beta. intros; lia. }
    { subst self1. cbn [agents set_agents set_random]. rewrite length_app.
      eapply Forall_impl; [exact Halive|]. cbv beta. intros; lia. }
    { exact Erest. }
    assert (Hsrc : forall c, (c < length (agents self))%nat ->
              replacement g ((marked ++ [n0]) !!! c)
              = replacement g (agents self !!! c)).
    { intros c Hc. rewrite lookup_total_app_l by lia. subst marked.
      destruct (decide (d = c)) as [->|Hdc].
      - rewrite list_lookup_total_alter_eq by exact Hc. reflexivity.
      - rewrite list_lookup_total_alter_ne by exact Hdc. reflexivity. }
    pose proof (replacement_clone g _ n0 _ En0) as (Hid & _).
    assert (Htop1 : top_id (marked ++ [n0]) = (top_id (agents self) + 1)%Z).
    { rewrite top_id_snoc by exact Hnonempty. rewrite Hid, Htop. lia. }
    exists (n0 :: news). subst self1.
    cbn [agents set_agents set_random random length] in *.
    repeat split.
    + rewrite advance_advance, Nat.add_1_r.
      rewrite mark_app by (now rewrite Hlen).
      rewrite <- app_assoc. reflexivity.
    + now rewrite Hnews.
    + intros _. exact Hne.
    + cbn [seq map]. f_equal. rewrite <- seq_shift, map_map.
      apply map_ext. intros k. apply drawn_advance.
    + intros [|k] c n Hk Hn; cbn in Hk, Hn.
      * injection Hk as <-. injection Hn as <-.
        rewrite <- En0, Htop. rewrite Z.add_0_r.
        rewrite <- (Hsrc c0 Hc0). now rewrite lookup_total_app_l by lia.
      * specialize (Hclone k c n Hk Hn).
        rewrite Htop1 in Hclone.
        assert (Hc : (c < length (agents self))%nat).
        { rewrite Forall_forall in Halive. apply Halive.
          apply list_elem_of_lookup_2 in Hk.
          apply list_elem_of_fmap in Hk as (j & -> & _).
          rewrite drawn_advance. now apply drawn_in. }
        rewrite Hsrc in Hclone by exact Hc.
        rewrite <- Hclone. f_equal. lia.
Qed.

Lemma marked_attr {A} (attr : Firm.t -> A) (d c : ref) (l : list Firm.t) :
  keeps_bankrupt_aside attr ->
  attr (alter (Firm.set_bankrupt true) d l !!! c) = attr (l !!! c).
Proof. intros Hattr. exact (mark_attr attr [d] l c Hattr). Qed.

(** The loop completes when there is a survivor to copy, and, in the
    capital sector, every survivor owns a machine. *)
Lemma replace_loop_total (g : group) (alive : list ref) (ds : list ref) :
  forall self : ComplexEconomy,
    (ds = [] \/ alive <> []) ->
    Forall (fun d => (d < length (agents self))%nat) ds ->
    Forall (fun c => (c < length (agents self))%nat) alive ->
    (g = capital_firm ->
     Forall (fun c => is_Some (Firm.machine (agents self !!! c))) alive) ->
    exists picks self',
      mapM (replace g alive) ds self = (Return picks, self').
Proof.
  induction ds as [|d ds IH]; intros self Hne Hds Halive Hmach.
  - cbn. eauto.
  - destruct Hne as [Hne|Hne]; [discriminate|].
    apply Forall_cons in Hds as [Hd Hds].
    rewrite mapM_cons_run, (replace_run).
    cbv zeta.
    destruct alive as [|a0 alive0] eqn:Ealive; [contradiction|].
    rewrite <- Ealive in *.
    set (marked := alter (Firm.set_bankrupt true) d (agents self)).
    assert (Hlen : length marked = length (agents self))
      by apply length_alter.
    assert (Hnonempty : marked <> []).
    { intros E. rewrite E in Hlen. cbn in Hlen. lia. }
    rewrite (max_of_top_id marked Hnonempty).
    set (c0 := drawn alive (random self) 0).
    destruct (replacement_total g (marked !!! c0)
                (top_id marked + 1)) as [n0 En0].
    { intros Hg. subst marked. rewrite marked_attr by (now intros b f).
      specialize (Hmach Hg). rewrite Forall_forall in Hmach.
      apply Hmach. now apply drawn_in. }
    rewrite En0.
    set (self1 := set_agents (marked ++ [n0]) _).
    destruct (IH self1) as (picks & self' & ->).
    + now right.
    + subst self1. cbn [agents set_agents set_random]. rewrite length_app.
      eapply Forall_impl; [exact Hds|]. cbv beta. intros; lia.
    + subst self1. cbn [agents set_agents set_random]. rewrite length_app.
      eapply Forall_impl; [exact Halive|]. cbv beta. intros; lia.
    + intros Hg. specialize (Hmach Hg).
      subst self1. cbn [agents set_agents set_random].
      rewrite Forall_forall in Hmach, Halive. apply Forall_forall.
      intros c Hc. rewrite lookup_total_app_l by (rewrite Hlen; auto).
      subst marked. rewrite marked_attr by (now intros b f). auto.
    + eauto.
Qed.

(** *** Running out of survivors *)

(** Without a survivor the first pass through the loop raises
    [IndexError], the firm at hand already marked. *)
Lemma replace_loop_no_survivor (g : group) (d : ref) (ds : list ref)
    (self : ComplexEconomy) :
  mapM (replace g []) (d :: ds) self
  = (Raise IndexError,
     set_agents (alter (Firm.set_bankrupt true) d (agents self)) self).
Proof.
  now rewrite mapM_cons_run, (replace_run).
Qed.

Lemma max_of_raises (ids : list Z) (e : exn) :
  max_of ids = Raise e -> e = ValueError.
Proof. destruct ids; cbn; congruence. Qed.

(** With a survivor the loop never raises [IndexError]. *)
Lemma replace_loop_not_index_error (g : group) (alive : list ref) (ds : list ref) :
  alive <> [] ->
  forall self, fst (mapM (replace g alive) ds self) <> Raise IndexError.
Proof.
  intros Hne. induction ds as [|d ds IH]; intros self; [discriminate|].
  rewrite mapM_cons_run, (replace_run).
  cbv zeta. destruct alive as [|a0 alive0] eqn:Ealive; [contradiction|].
  rewrite <- Ealive in *.
  destruct (max_of _) as [top|e] eqn:Etop.
  2:{ apply max_of_raises in Etop as ->. discriminate. }
  destruct (replacement _ _ _) as [n0|e] eqn:En0.
  2:{ apply (replacement_raises) in En0 as ->.
      discriminate. }
  match goal with
  | |- context [mapM _ ds ?s] =>
      specialize (IH s); destruct (mapM (replace g alive) ds s) as [[picks|e] s']
  end.
  - discriminate.
  - cbn in *. exact IH.
Qed.

(** *** The rounds of [exit_and_entry] *)

Lemma exit_and_entry_group_run (g : group) (self : ComplexEconomy) :
  exit_and_entry_group g self
  = mapM (replace g (alive_firms g self)) (dead_firms g self) self.
Proof. reflexivity. Qed.

(** A completed round of group [g]. *)
Lemma exit_and_entry_group_inv (g : group) (self self' : ComplexEconomy)
    (picks : list ref) :
  exit_and_entry_group g self = (Return picks, self') ->
  exists news,
    self' = set_random (advance (length (dead_firms g self)) (random self))
              (set_agents (mark (dead_firms g self) (agents self) ++ news) self)
    /\ length news = length (dead_firms g self)
    /\ (dead_firms g self <> [] -> alive_firms g self <> [])
    /\ picks = map (drawn (alive_firms g self) (random self))
                   (seq 0 (length (dead_firms g self)))
    /\ (forall k n,
          news !! k = Some n ->
          drawn (alive_firms g self) (random self) k ∈ alive_firms g self
          /\ replacement g
               (agents self !!! drawn (alive_firms g self) (random self) k)
               (top_id (agents self) + 1 + Z.of_nat k) = Return n).
Proof.
  rewrite exit_and_entry_group_run. intros Hrun.
  apply (replace_loop_inv) in Hrun
    as (news & -> & Hlen & Hne & -> & Hclone);
    [|apply dead_firms_in_range|apply alive_firms_in_range].
  exists news. repeat split; try assumption.
  - apply drawn_in, Hne. apply lookup_lt_Some in H. rewrite Hlen in H.
    destruct (dead_firms g self); [cbn in H; lia|discriminate].
  - apply (Hclone k _ n); [|assumption].
    change (map ?f ?l) with (f <$> l).
    rewrite list_lookup_fmap, lookup_seq_lt; [reflexivity|].
    apply lookup_lt_Some in H. now rewrite <- Hlen.
Qed.

(** The firms a round adds are of the round's group. *)
Lemma round_news_group (g : group) (news : list Firm.t)
    (src : nat -> Firm.t) (id : nat -> Z) :
  (forall k n, news !! k = Some n -> replacement g (src k) (id k) = Return n) ->
  Forall (fun n => Firm.group n = g) news.
Proof.
  intros Hclone. apply Forall_forall. intros n Hn.
  apply list_elem_of_lookup in Hn as [k Hk].
  now apply Hclone, (replacement_clone) in Hk.
Qed.

(** A completed run of [exit_and_entry].  [dead] lists the dead firms in
    the order in which the loops meet them; the [k]-th new firm replaces
    the [k]-th of them, is of its group, and is built from the survivor
    of that group recorded as the [k]-th draw. *)
Lemma exit_and_entry_inv (self self' : ComplexEconomy) (picks : list (list ref)) :
  exit_and_entry self = (Return picks, self') ->
  let dead := dead_firms consumption_firm self ++ dead_firms capital_firm self in
  exists news,
    self' = set_random (advance (length dead) (random self))
              (set_agents (mark dead (agents self) ++ news) self)
    /\ length news = length dead
    /\ (forall k n,
          news !! k = Some n ->
          exists d c,
            dead !! k = Some d
            /\ concat picks !! k = Some c
            /\ c ∈ alive_firms (Firm.group (agents self !!! d)) self
            /\ replacement (Firm.group (agents self !!! d)) (agents self !!! c)
                 (top_id (agents self) + 1 + Z.of_nat k) = Return n).
Proof.
  intros Hrun dead. unfold exit_and_entry, groups in Hrun.
  rewrite mapM_cons_run in Hrun.
  destruct (exit_and_entry_group consumption_firm self)
    as [[picks_c|e] self1] eqn:Ec; [|discriminate Hrun].
  rewrite mapM_cons_run in Hrun.
  destruct (exit_and_entry_group capital_firm self1)
    as [[picks_k|e] self2] eqn:Ek; [|discriminate Hrun].
  cbn in Hrun. injection Hrun as <- <-.
  apply exit_and_entry_group_inv in Ec as (news_c & -> & Hlen_c & Hne_c & -> & Hc).
  apply exit_and_entry_group_inv in Ek as (news_k & -> & Hlen_k & Hne_k & -> & Hk).
  set (l := agents self) in *.
  set (dead_c := dead_firms consumption_firm self) in *.
  set (self1 := set_random _ (set_agents (mark dead_c l ++ news_c) self)) in *.
  destruct (round_other_group consumption_firm capital_firm self self1 news_c)
    as (_ & Hdead & Halive);
    [discriminate|reflexivity| |].
  { apply (round_news_group consumption_firm news_c
             (fun k => agents self
                       !!! drawn (alive_firms consumption_firm self) (random self) k)
             (fun k => (top_id (agents self) + 1 + Z.of_nat k)%Z)).
    intros k n Hn. exact (proj2 (Hc k n Hn)). }
  rewrite Hdead, Halive in *.
  set (dead_k := dead_firms capital_firm self) in *.
  set (alive_k := alive_firms capital_firm self) in *.
  assert (Hgroup : forall g d, d ∈ dead_firms g self ->
            Firm.group (l !!! d) = g).
  { intros g d Hd. apply dead_firms_spec in Hd as [Hd _].
    now apply get_group_spec in Hd. }
  exists (news_c ++ news_k). subst self1.
  cbn [agents random set_agents set_random] in *.
  repeat split.
  - subst dead. rewrite advance_advance, length_app, (Nat.add_comm (length dead_k)).
    rewrite mark_app, mark_mark, <- app_assoc; [reflexivity|].
    rewrite mark_length. apply dead_firms_in_range.
  - subst dead. rewrite !length_app. lia.
  - intros k n Hn. apply lookup_app_Some in Hn as [Hn|[Hge Hn]].
    + destruct (Hc k n Hn) as [Hin Hrep].
      assert (Hlt : (k < length dead_c)%nat)
        by (rewrite <- Hlen_c; now apply lookup_lt_Some in Hn).
      destruct (lookup_lt_is_Some_2 dead_c k Hlt) as [d Hd].
      exists d, (drawn (alive_firms consumption_firm self) (random self) k).
      rewrite (Hgroup consumption_firm d) by (eapply list_elem_of_lookup_2; eauto).
      repeat split; try assumption.
      * subst dead. now apply lookup_app_l_Some.
      * cbn [concat]. apply lookup_app_l_Some.
        change (map ?f ?x) with (f <$> x).
        now rewrite list_lookup_fmap, lookup_seq_lt.
    + rewrite Hlen_c in Hge, Hn.
      destruct (Hk _ n Hn) as [Hin Hrep].
      set (k' := (k - length dead_c)%nat) in *.
      assert (Hlt : (k' < length dead_k)%nat)
        by (rewrite <- Hlen_k; now apply lookup_lt_Some in Hn).
      destruct (lookup_lt_is_Some_2 dead_k k' Hlt) as [d Hd].
      set (c := drawn alive_k (advance (length dead_c) (random self)) k') in *.
      exists d, c.
      rewrite (Hgroup capital_firm d) by (eapply list_elem_of_lookup_2; eauto).
      assert (Hcl : (c < length l)%nat).
      { pose proof (alive_firms_in_range capital_firm self) as R.
        rewrite Forall_forall in R. now apply R. }
      repeat split; try assumption.
      * subst dead. rewrite lookup_app_r by lia. exact Hd.
      * cbn [concat]. rewrite app_nil_r, lookup_app_r; rewrite length_map, length_seq;
          [|lia].
        change (map ?f ?x) with (f <$> x).
        now rewrite list_lookup_fmap, lookup_seq_lt.
      * assert (Hsrc : replacement capital_firm ((mark dead_c l ++ news_c) !!! c)
                       = replacement capital_firm (l !!! c)).
        { rewrite lookup_total_app_l by (now rewrite mark_length).
          rewrite mark_lookup_total by exact Hcl.
          now destruct (contains c dead_c). }
        rewrite Hsrc in Hrep. rewrite <- Hrep. f_equal.
        assert (Hl : l <> []) by (intros E; rewrite E in Hcl; cbn in Hcl; lia).
        rewrite top_id_fresh.
        -- rewrite mark_top_id, Hlen_c. subst k'. lia.
        -- now apply mark_nonempty.
        -- intros j m Hm. rewrite mark_top_id.
           destruct (Hc j m Hm) as [_ Hm'].
           now apply (replacement_clone) in Hm'.
Qed.

(** A round completes when its group has no dead firm or has a survivor,
    every survivor of the capital sector owning a machine. *)
Lemma exit_and_entry_group_total (g : group) (self : ComplexEconomy) :
  dead_firms g self = [] \/ alive_firms g self <> [] ->
  (g = capital_firm ->
   Forall (fun c => is_Some (Firm.machine (deref self c))) (alive_firms g self)) ->
  exists picks self', exit_and_entry_group g self = (Return picks, self').
Proof.
  intros Hne Hmach. rewrite exit_and_entry_group_run.
  apply (replace_loop_total);
    [exact Hne|apply dead_firms_in_range|apply alive_firms_in_range|exact Hmach].
Qed.

Lemma exit_and_entry_total (self : ComplexEconomy) :
  (forall g, dead_firms g self = [] \/ alive_firms g self <> []) ->
  Forall (fun c => is_Some (Firm.machine (deref self c)))
         (alive_firms capital_firm self) ->
  exists picks self', exit_and_entry self = (Return picks, self').
Proof.
  intros Hne Hmach. unfold exit_and_entry, groups.
  rewrite mapM_cons_run.
  destruct (exit_and_entry_group_total consumption_firm self (Hne _))
    as (picks_c & self1 & Ec); [discriminate|].
  rewrite Ec, mapM_cons_run.
  destruct (exit_and_entry_group_inv _ _ _ _ Ec)
    as (news_c & Eself1 & _ & _ & _ & Hc).
  assert (Hagents : agents self1
                    = mark (dead_firms consumption_firm self) (agents self) ++ news_c)
    by (now rewrite Eself1).
  destruct (round_other_group consumption_firm capital_firm self self1 news_c)
    as (_ & Hdead & Halive); [discriminate|exact Hagents| |].
  { apply (round_news_group consumption_firm news_c
             (fun k => agents self
                       !!! drawn (alive_firms consumption_firm self) (random self) k)
             (fun k => (top_id (agents self) + 1 + Z.of_nat k)%Z)).
    intros k n Hn. exact (proj2 (Hc k n Hn)). }
  destruct (exit_and_entry_group_total capital_firm self1)
    as (picks_k & self2 & ->).
  - rewrite Hdead, Halive. apply Hne.
  - intros _. rewrite Halive. eapply Forall_impl; [exact Hmach|].
    cbv beta. intros c Hc'. unfold deref in *. rewrite Hagents.
    destruct (Nat.lt_ge_cases c (length (agents self))) as [Hlt|Hge].
    + rewrite lookup_total_app_l by (now rewrite mark_length).
      rewrite (mark_attr Firm.machine); [exact Hc'|now intros b f].
    + rewrite list_lookup_total_alt, lookup_ge_None_2 in Hc' by exact Hge.
      now destruct Hc'.
  - cbn. eauto.
Qed.

(** Whatever the outcome of [exit_and_entry], the population it leaves
    is the one it found, extended by firms with fresh identifiers. *)
Lemma exit_and_entry_group_extended (g : group) (self self' : ComplexEconomy)
    (o : outcome (list ref)) (l0 : list Firm.t) :
  extended l0 (agents self) ->
  exit_and_entry_group g self = (o, self') ->
  extended l0 (agents self').
Proof.
  intros Hext. rewrite exit_and_entry_group_run.
  apply replace_loop_extended; [apply dead_firms_in_range|exact Hext].
Qed.

Lemma exit_and_entry_extended (self self' : ComplexEconomy)
    (o : outcome (list (list ref))) :
  exit_and_entry self = (o, self') ->
  extended (agents self) (agents self').
Proof.
  unfold exit_and_entry, groups. rewrite mapM_cons_run.
  destruct (exit_and_entry_group consumption_firm self)
    as [[picks_c|e] self1] eqn:Ec.
  - apply (exit_and_entry_group_extended _ _ _ _ (agents self)) in Ec;
      [|apply extended_refl].
    rewrite mapM_cons_run.
    destruct (exit_and_entry_group capital_firm self1)
      as [[picks_k|e] self2] eqn:Ek;
      apply (exit_and_entry_group_extended _ _ _ _ _ Ec) in Ek;
      cbn; now intros [= <- <-].
  - apply (exit_and_entry_group_extended _ _ _ _ (agents self)) in Ec;
      [|apply extended_refl].
    now intros [= <- <-].
Qed.

(** *** The claims about a completed run *)


(** C5. Each firm that [exit_and_entry] creates, whether the call
    completes or ends with an exception, has an identifier larger than
    the identifier of every firm that stands before it in the agent
    list, that is, of every firm of either group, bankrupt or not, that
    was in the population when it was created; the identifiers of the
    firms created in one call therefore increase strictly.  The [k]-th
    new firm has the identifier [k] steps above the largest identifier of
    the population before the call. *)
Theorem entrant_identifiers (self self' : ComplexEconomy)
    (o : outcome (list (list ref))) :
  exit_and_entry self = (o, self') ->
  forall i j a b,
    (i < j)%nat -> (length (agents self) <= j)%nat ->
    agents self' !! i = Some a -> agents self' !! j = Some b ->
    (Firm.unique_id a < Firm.unique_id b)%Z
    /\ Firm.unique_id b
       = (top_id (agents self) + 1 + Z.of_nat (j - length (agents self)))%Z.
Proof.
  intros Hrun i j a b Hij Hj Ha Hb.
  apply exit_and_entry_extended in Hrun.
  exact (extended_increasing _ _ i j a b Hrun Hij Hj Ha Hb).
Qed.

(** *** The survivor pool *)

(** C9. In a completed round of a group, every reference drawn as the
    firm to copy comes from the list of survivors built before the loop:
    it is none of the firms found dead in the round, in particular not the
    dead firm it is drawn for, and it points into the population as it
    was before the round, whereas the firms created in the round stand
    behind that population.  The firm it points to is still live after
    the round. *)
Theorem survivor_pool_fixed (g : group) (self self' : ComplexEconomy)
    (picks : list ref) :
  exit_and_entry_group g self = (Return picks, self') ->
  length picks = length (dead_firms g self)
  /\ (forall j n, agents self !! j = None -> agents self' !! j = Some n ->
                  (length (agents self) <= j)%nat /\ (j ∉ picks))
  /\ (forall k d c,
        dead_firms g self !! k = Some d -> picks !! k = Some c ->
        c ∈ alive_firms g self
        /\ (c ∉ dead_firms g self)
        /\ c <> d
        /\ (c < length (agents self))%nat
        /\ Firm.bankrupt (deref self' c) = false).
Proof.
  intros Hrun.
  apply exit_and_entry_group_inv in Hrun as (news & -> & Hlen & Hne & -> & _).
  assert (Hpick : forall c,
            c ∈ map (drawn (alive_firms g self) (random self))
                    (seq 0 (length (dead_firms g self))) ->
            c ∈ alive_firms g self).
  { intros c Hc. change (map ?f ?x) with (f <$> x) in Hc.
    apply list_elem_of_fmap in Hc as (k & -> & Hk).
    apply drawn_in, Hne. apply list_elem_of_In, in_seq in Hk.
    destruct (dead_firms g self); [cbn in Hk; lia|discriminate]. }
  assert (Hrange : forall c, c ∈ alive_firms g self ->
            (c < length (agents self))%nat).
  { pose proof (alive_firms_in_range g self) as R.
    now rewrite Forall_forall in R. }
  split; [now rewrite length_map, length_seq|]. split.
  - intros j n Hj _. apply lookup_ge_None in Hj. split; [exact Hj|].
    intros Hin. apply Hpick, Hrange in Hin. lia.
  - intros k d c Hd Hc.
    assert (Halive : c ∈ alive_firms g self)
      by (eapply Hpick, list_elem_of_lookup_2; eauto).
    assert (Hnd : c ∉ dead_firms g self) by (now apply alive_not_dead).
    repeat split; try assumption.
    + intros ->. apply Hnd. eapply list_elem_of_lookup_2; eauto.
    + now apply Hrange.
    + unfold deref. cbn [agents set_agents set_random].
      rewrite lookup_total_app_l by (rewrite mark_length; now apply Hrange).
      rewrite mark_lookup_total by (now apply Hrange).
      destruct (contains c (dead_firms g self)) eqn:E.
      * apply contains_spec in E. contradiction.
      * apply alive_firms_spec in Halive as [Halive _].
        now apply get_group_spec in Halive.
Qed.

(** *** Groups without a survivor *)

Lemma exit_and_entry_group_index_error (g : group) (self : ComplexEconomy) :
  fst (exit_and_entry_group g self) = Raise IndexError
  <-> dead_firms g self <> [] /\ alive_firms g self = [].
Proof.
  rewrite exit_and_entry_group_run. split.
  - intros Hrun.
    destruct (alive_firms g self) as [|c alive] eqn:Ea.
    + split; [|reflexivity]. intros Ed. rewrite Ed in Hrun. discriminate.
    + exfalso. revert Hrun.
      now apply (replace_loop_not_index_error).
  - intros [Hd ->]. destruct (dead_firms g self) as [|d ds]; [contradiction|].
    now rewrite (replace_loop_no_survivor).
Qed.


End ExitAndEntry.


Lemma entrant_identifiers_witness :
  let self := Sample.economy Sample.market in
  let run := exit_and_entry Sample.new_firm_state Sample.new_machine self in
  exists a b,
    agents (snd run) !! 5%nat = Some a
    /\ agents (snd run) !! 6%nat = Some b
    /\ (Firm.unique_id a < Firm.unique_id b)%Z
    /\ Firm.unique_id b = (top_id (agents self) + 1 + 0)%Z.
Proof.
  cbv zeta.
  set (self := Sample.economy Sample.market).
  set (run := exit_and_entry Sample.new_firm_state Sample.new_machine self).
  assert (Hrun : run = (Return [[5%nat]; [0%nat]], snd run))
    by (vm_compute; reflexivity).
  destruct (agents (snd run) !! 5%nat) as [a|] eqn:Ea;
    [|vm_compute in Ea; discriminate].
  destruct (agents (snd run) !! 6%nat) as [b|] eqn:Eb;
    [|vm_compute in Eb; discriminate].
  exists a, b. split; [reflexivity|]. split; [reflexivity|].
  apply (entrant_identifiers Sample.new_firm_state Sample.new_machine
           self (snd run) _ Hrun 5%nat 6%nat a b);
    [lia|vm_compute; lia|exact Ea|exact Eb].
Defined.

Lemma survivor_pool_fixed_witness :
  let self := Sample.economy Sample.market in
  let run := exit_and_entry_group Sample.new_firm_state Sample.new_machine
               consumption_firm self in
  fst run = Return [5%nat]
  /\ 5%nat ∈ alive_firms consumption_firm self
  /\ 5%nat ∉ dead_firms consumption_firm self.
Proof.
  cbv zeta.
  set (self := Sample.economy Sample.market).
  set (run := exit_and_entry_group Sample.new_firm_state Sample.new_machine
                consumption_firm self).
  assert (Hrun : run = (Return [5%nat], snd run)) by (vm_compute; reflexivity).
  split; [now rewrite Hrun|].
  destruct (survivor_pool_fixed Sample.new_firm_state Sample.new_machine
              consumption_firm self (snd run) [5%nat] Hrun) as (_ & _ & H).
  destruct (H 0%nat 2%nat 5%nat) as (Ha & Hd & _); [reflexivity|reflexivity|].
  split; assumption.
Defined.


(** * Further properties of the model *)

(** ** Sums *)

Lemma fold_left_Qplus (l : list Q) (a : Q) : fold_left Qplus l a == a + sum l.
Proof.
  unfold sum. revert a. induction l as [|x l IH]; intros a; cbn [fold_left].
  - ring.
  - rewrite (IH (a + x)), (IH (0 + x)). ring.
Qed.

Lemma sum_cons (x : Q) (l : list Q) : sum (x :: l) == x + sum l.
Proof. unfold sum at 1. cbn [fold_left]. rewrite fold_left_Qplus. ring. Qed.

Lemma sum_app (l1 l2 : list Q) : sum (l1 ++ l2) == sum l1 + sum l2.
Proof.
  induction l1 as [|x l1 IH]; cbn [app].
  - change (sum []) with 0. ring.
  - rewrite !sum_cons, IH. ring.
Qed.

Lemma sum_map_plus {A} (f g : A -> Q) (l : list A) :
  sum (map (fun a => f a + g a) l) == sum (map f l) + sum (map g l).
Proof.
  induction l as [|a l IH]; cbn [map].
  - reflexivity.
  - rewrite !sum_cons, IH. ring.
Qed.

(** A sum lies between the bounds of its terms, counted once each. *)
Lemma sum_bounds (lo hi : Q) (l : list Q) :
  Forall (fun x => lo <= x <= hi) l ->
  len l * lo <= sum l <= len l * hi.
Proof.
  unfold len. induction l as [|x l IH]; intros Hl.
  - change (sum []) with 0. cbn [length Z.of_nat]. change (inject_Z 0) with 0.
    rewrite !Qmult_0_l. split; apply Qle_refl.
  - apply Forall_cons in Hl as [Hx Hl]. specialize (IH Hl).
    rewrite sum_cons. cbn [length]. rewrite Nat2Z.inj_succ.
    unfold Z.succ. rewrite inject_Z_plus. change (inject_Z 1) with 1.
    split; lra.
Qed.

Lemma len_positive {A} (l : list A) : l <> [] -> 0 < len l.
Proof.
  destruct l as [|a l]; [contradiction|]. intros _. unfold len.
  cbn [length]. rewrite Nat2Z.inj_succ. unfold Qlt. cbn. lia.
Qed.

(** ** Labour demand *)


(** X2. The aggregates that go through [get_group] do not see bankrupt
    firms: two models whose live firms are the same, group by group, have
    the same GDP, capital labour demand, average prices and sector
    competitiveness, and get the same totals of investment, production
    and inventories. *)
Theorem aggregates_ignore_bankrupt (self other : ComplexEconomy) :
  (forall g, live_firms g self = live_firms g other) ->
  compute_gdp self = compute_gdp other
  /\ capital_labour_demand self = capital_labour_demand other
  /\ (forall g w, compute_average_price g w self = compute_average_price g w other)
  /\ (forall g, compute_sector_competitiveness g self
                = compute_sector_competitiveness g other)
  /\ expansion_investment (snd (aggregate_investment self))
     = expansion_investment (snd (aggregate_investment other))
  /\ replacement_investment (snd (aggregate_investment self))
     = replacement_investment (snd (aggregate_investment other))
  /\ agg_production (snd (aggregate_production self))
     = agg_production (snd (aggregate_production other))
  /\ agg_inventories (snd (aggregate_inventories self))
     = agg_inventories (snd (aggregate_inventories other)).
Proof.
  intros Hlive.
  unfold compute_gdp, capital_labour_demand, compute_average_price,
    compute_sector_competitiveness, aggregate_investment, aggregate_production,
    aggregate_inventories.
  run_method. cbn [snd]. rewrite !attrs_get_group.
  repeat split; try intros g; try intros w; rewrite ?attrs_get_group, ?Hlive;
    reflexivity.
Qed.

Lemma aggregates_ignore_bankrupt_witness :
  compute_gdp (Sample.economy Sample.market)
  = compute_gdp (Sample.economy Sample.market_idle).
Proof.
  apply (aggregates_ignore_bankrupt (Sample.economy Sample.market)
           (Sample.economy Sample.market_idle)).
  intros []; reflexivity.
Defined.

(** ** Prices *)





(** ** Labour productivity and unit labour cost *)

Section Averages.

Variable compute_unit_labour_cost : Machine.t -> ComplexEconomy -> Q.

(** X5. [update_avg_ulc] and [update_average_labour_productivity] assign
    nothing before all their divisions are done: when one of them raises,
    the object is as it was.  Both raise [ZeroDivisionError] when no
    capital-good firm is live. *)
Theorem capital_averages_fail_clean (self self' : ComplexEconomy) (e : exn) :
  (update_avg_ulc compute_unit_labour_cost self = (Raise e, self') -> self' = self)
  /\ (update_average_labour_productivity self = (Raise e, self') -> self' = self)
  /\ (live_firms capital_firm self = [] ->
      update_avg_ulc compute_unit_labour_cost self = (Raise ZeroDivisionError, self)
      /\ update_average_labour_productivity self = (Raise ZeroDivisionError, self)).
Proof.
  unfold update_avg_ulc, update_average_labour_productivity. run_method.
  split; [|split].
  - split_outcomes; now intros [= _ <-].
  - split_outcomes; now intros [= _ <-].
  - intros Hcap. apply get_group_nil in Hcap. now rewrite Hcap.
Qed.

End Averages.

Lemma capital_averages_fail_clean_witness :
  let self := Sample.economy [Sample.firm 0 consumption_firm false 1 1 1] in
  update_avg_ulc Sample.unit_labour_cost self = (Raise ZeroDivisionError, self)
  /\ update_average_labour_productivity self = (Raise ZeroDivisionError, self).
Proof.
  cbv zeta.
  apply (capital_averages_fail_clean Sample.unit_labour_cost
           (Sample.economy [Sample.firm 0 consumption_firm false 1 1 1])
           (Sample.economy [Sample.firm 0 consumption_firm false 1 1 1])
           ZeroDivisionError).
  reflexivity.
Defined.

(** ** Labour supply, employment and the wage *)

(** The object after [n] calls of [update_labour_supply]. *)
Lemma update_labour_supply_run (self : ComplexEconomy) :
  update_labour_supply self
  = (Return tt,
     set_labour_supply (labour_supply self * (1 + labour_supply_growth self)) self).
Proof. reflexivity. Qed.








(** ** Exit and entry, whatever the outcome *)

Section ExitAndEntryOutcomes.

Variable new_firm_state : group -> Firm.t.
Variable new_machine : Machine.t.

Local Abbreviation replace := (replace new_firm_state new_machine).
Local Abbreviation exit_and_entry_group :=
  (exit_and_entry_group new_firm_state new_machine).
Local Abbreviation exit_and_entry := (exit_and_entry new_firm_state new_machine).

Lemma set_agents_same (self : ComplexEconomy) :
  set_random (random self) (set_agents (agents self) self) = self.
Proof. now destruct self. Qed.

(** The loop over the dead firms, completed or not: it has marked the
    dead firms it came to, added at most one firm for each of them, and
    left everything but the agent list and the random source alone. *)
Lemma replace_loop_any (g : group) (alive : list ref) (ds : list ref) :
  forall (self self' : ComplexEconomy) (o : outcome (list ref)),
    Forall (fun d => (d < length (agents self))%nat) ds ->
    mapM (replace g alive) ds self = (o, self') ->
    exists ds1 ds2 news,
      ds = ds1 ++ ds2
      /\ self' = set_random (random self')
                   (set_agents (mark ds1 (agents self) ++ news) self)
      /\ (length news <= length ds1)%nat
      /\ Forall (fun n => Firm.group n = g /\ Firm.bankrupt n = false) news.
Proof.
  induction ds as [|d ds IH]; intros self self' o Hds.
  - intros [= <- <-]. exists [], [], []. cbn [mark fold_left app length].
    rewrite app_nil_r, set_agents_same. repeat split; auto.
  - apply Forall_cons in Hds as [Hd Hds].
    rewrite mapM_cons_run, (replace_run new_firm_state new_machine). cbv zeta.
    set (marked := alter (Firm.set_bankrupt true) d (agents self)).
    assert (Hlen : length marked = length (agents self)) by apply length_alter.
    assert (Hstop : forall self0 : ComplexEconomy,
              self0 = set_random (random self0) (set_agents marked self) ->
              exists ds1 ds2 news,
                d :: ds = ds1 ++ ds2
                /\ self0
                   = set_random (random self0)
                       (set_agents (mark ds1 (agents self) ++ news) self)
                /\ (length news <= length ds1)%nat
                /\ Forall (fun n => Firm.group n = g /\ Firm.bankrupt n = false)
                          news).
    { intros self0 E. exists [d], ds, []. cbn [mark fold_left app length].
      rewrite app_nil_r. repeat split; auto. }
    destruct alive as [|a0 alive0] eqn:Ealive.
    { intros [= <- <-]. apply Hstop. now destruct self. }
    rewrite <- Ealive in *.
    destruct (max_of _) as [top|e]; [|intros [= <- <-]; now apply Hstop].
    destruct (replacement _ _ _ _ _) as [n|e] eqn:En;
      [|intros [= <- <-]; now apply Hstop].
    set (self1 := set_agents (marked ++ [n]) _).
    assert (Hrest : forall o2 self2,
              mapM (replace g alive) ds self1 = (o2, self2) ->
              exists ds1 ds2 news,
                d :: ds = ds1 ++ ds2
                /\ self2
                   = set_random (random self2)
                       (set_agents (mark ds1 (agents self) ++ news) self)
                /\ (length news <= length ds1)%nat
                /\ Forall (fun n => Firm.group n = g /\ Firm.bankrupt n = false)
                          news).
    { intros o2 self2 Erest.
      destruct (IH self1 self2 o2) as (ds1 & ds2 & news & -> & Eself & Hnews & Hg);
        [|exact Erest|].
      { subst self1. cbn [agents set_agents set_random]. rewrite length_app.
        eapply Forall_impl; [exact Hds|]. cbv beta. intros; lia. }
      exists (d :: ds1), ds2, (n :: news).
      split; [reflexivity|]. split; [|split].
      - rewrite Eself at 1. subst self1. cbn [agents set_agents set_random].
        rewrite mark_app by (rewrite Hlen; apply Forall_app in Hds; tauto).
        cbn [mark fold_left]. fold marked.
        rewrite <- app_assoc. reflexivity.
      - cbn [length]. lia.
      - constructor; [|exact Hg].
        apply (replacement_clone new_firm_state new_machine) in En. tauto. }
    destruct (mapM (replace g alive) ds self1) as [[cs|e] self2];
      intros [= <- <-]; eapply Hrest; reflexivity.
Qed.


Lemma round_news (g : group) (self self1 : ComplexEconomy) (picks : list ref) :
  exit_and_entry_group g self = (Return picks, self1) ->
  exists news,
    self1 = set_random (advance (length (dead_firms g self)) (random self))
              (set_agents (mark (dead_firms g self) (agents self) ++ news) self)
    /\ length news = length (dead_firms g self)
    /\ Forall (fun n => Firm.group n = g /\ Firm.bankrupt n = false
                        /\ is_dead n = false) news.
Proof.
  intros Hrun.
  apply (exit_and_entry_group_inv new_firm_state new_machine) in Hrun
    as (news & E & Hlen & _ & _ & Hc).
  exists news. split; [exact E|]. split; [exact Hlen|].
  apply Forall_forall. intros n Hn.
  apply list_elem_of_lookup in Hn as [k Hk].
  destruct (Hc k n Hk) as [Halive Hrep].
  apply (replacement_clone new_firm_state new_machine) in Hrep
    as (_ & Hg & Hb & Hla & Hms & _).
  split; [exact Hg|]. split; [exact Hb|].
  apply alive_firms_spec in Halive as [_ Halive].
  unfold is_dead in *. unfold deref in Halive. now rewrite Hla, Hms.
Qed.

(** After a completed round of group [g], the live firms of [g] are its
    survivors followed by the firms the round has added, and none of
    them meets the condition of the dead. *)
Lemma round_own_group (g : group) (self self1 : ComplexEconomy) (picks : list ref) :
  exit_and_entry_group g self = (Return picks, self1) ->
  get_group g false self1
  = alive_firms g self
    ++ seq (length (agents self)) (length (dead_firms g self))
  /\ dead_firms g self1 = []
  /\ length (get_group g false self1) = length (get_group g false self).
Proof.
  intros Hrun. apply round_news in Hrun as (news & E & Hlen & Hnews).
  assert (Hagents : agents self1 = mark (dead_firms g self) (agents self) ++ news)
    by (now rewrite E).
  set (P := fun a : Firm.t => group_eqb (Firm.group a) g && negb (Firm.bankrupt a)).
  assert (Hgroup : get_group g false self1
                   = alive_firms g self
                     ++ seq (length (agents self)) (length (dead_firms g self))).
  { rewrite get_group_single, Hagents. fold P.
    rewrite length_app, mark_length, seq_app, List.filter_app. f_equal.
    - unfold alive_firms. rewrite get_group_single. fold P.
      rewrite filter_filter. apply List.filter_ext_in.
      intros i Hi. apply in_seq in Hi.
      rewrite lookup_total_app_l by (rewrite mark_length; lia).
      rewrite mark_lookup_total by lia.
      destruct (contains i (dead_firms g self)); cbn [negb].
      + subst P. cbn. now rewrite !andb_false_r.
      + now rewrite andb_true_r.
    - rewrite Hlen. apply forallb_filter_id, forallb_forall.
      intros i Hi. apply in_seq in Hi. cbn [plus] in Hi.
      rewrite lookup_total_app_r by (rewrite mark_length; lia).
      rewrite mark_length. rewrite Forall_forall in Hnews.
      destruct (Hnews (news !!! (i - length (agents self))%nat))
        as (Hg & Hb & _).
      { apply list_elem_of_lookup_total_2. lia. }
      subst P. cbv beta. rewrite Hg, Hb. now destruct g. }
  split; [exact Hgroup|]. split.
  - unfold dead_firms. rewrite Hgroup.
    match goal with
    | |- List.filter _ ?l = [] =>
        transitivity (List.filter (fun _ : nat => false) l);
          [|apply List.filter_false]
    end.
    apply List.filter_ext_in. intros i Hi. unfold deref. rewrite Hagents.
    apply in_app_or in Hi as [Hi|Hi].
    + apply list_elem_of_In in Hi.
      pose proof (alive_firms_in_range g self) as R.
      rewrite Forall_forall in R. specialize (R i Hi).
      rewrite lookup_total_app_l by (now rewrite mark_length).
      rewrite (mark_attr is_dead) by apply is_dead_set_bankrupt.
      now apply alive_firms_spec in Hi.
    + apply in_seq in Hi.
      rewrite lookup_total_app_r by (rewrite mark_length; lia).
      rewrite mark_length. rewrite Forall_forall in Hnews.
      apply Hnews, list_elem_of_lookup_total_2. lia.
  - rewrite Hgroup, length_app, length_seq.
    unfold alive_firms, dead_firms.
    rewrite <- (List.filter_length (fun f => is_dead (deref self f))
                  (get_group g false self)).
    rewrite Nat.add_comm. f_equal. f_equal.
    apply List.filter_ext_in. intros i Hi. fold (dead_firms g self).
    destruct (is_dead (deref self i)) eqn:Ed; cbn [negb].
    + apply negb_false_iff, contains_spec, dead_firms_spec.
      split; [now apply list_elem_of_In|exact Ed].
    + apply negb_true_iff.
      destruct (contains i (dead_firms g self)) eqn:Ec; [|reflexivity].
      apply contains_spec, dead_firms_spec in Ec as [_ Ec]. congruence.
Qed.

(** With no dead firm in any group, [exit_and_entry] does nothing. *)
Lemma exit_and_entry_idle (self : ComplexEconomy) :
  (forall g, dead_firms g self = []) ->
  exit_and_entry self = (Return [[]; []], self).
Proof.
  intros Hdead.
  assert (Hround : forall g, exit_and_entry_group g self = (Return [], self)).
  { intros g.
    now rewrite (exit_and_entry_group_run new_firm_state new_machine), Hdead. }
  unfold exit_and_entry, groups.
  rewrite mapM_cons_run, Hround, mapM_cons_run, Hround. reflexivity.
Qed.

(** The two rounds of a completed run. *)
Lemma exit_and_entry_rounds (self self' : ComplexEconomy) (picks : list (list ref)) :
  exit_and_entry self = (Return picks, self') ->
  exists picks_c picks_k self1,
    exit_and_entry_group consumption_firm self = (Return picks_c, self1)
    /\ exit_and_entry_group capital_firm self1 = (Return picks_k, self')
    /\ picks = [picks_c; picks_k].
Proof.
  unfold exit_and_entry, groups. rewrite mapM_cons_run.
  destruct (exit_and_entry_group consumption_firm self)
    as [[picks_c|e] self1] eqn:Ec; [|discriminate].
  rewrite mapM_cons_run.
  destruct (exit_and_entry_group capital_firm self1)
    as [[picks_k|e] self2] eqn:Ek; [|discriminate].
  cbn. intros [= <- <-]. eauto 10.
Qed.

(** X10. A completed [exit_and_entry] keeps the number of live firms of
    each group, leaves no live firm that meets the condition of the dead
    (every live firm has a positive market share and liquid assets that
    are not negative), and a second call right after it changes
    nothing. *)
Theorem exit_and_entry_settles (self self' : ComplexEconomy)
    (picks : list (list ref)) :
  exit_and_entry self = (Return picks, self') ->
  (forall g, length (live_firms g self') = length (live_firms g self))
  /\ (forall g a, In a (live_firms g self') ->
                  0 < Firm.market_share a /\ 0 <= Firm.liquid_assets a)
  /\ exit_and_entry self' = (Return [[]; []], self').
Proof.
  intros Hrun.
  apply exit_and_entry_rounds in Hrun as (picks_c & picks_k & self1 & Ec & Ek & _).
  destruct (round_own_group _ _ _ _ Ec) as (_ & Hdc & Hlc).
  destruct (round_own_group _ _ _ _ Ek) as (_ & Hdk & Hlk).
  destruct (round_news _ _ _ _ Ec) as (news_c & E1 & _ & Hnews_c).
  destruct (round_news _ _ _ _ Ek) as (news_k & E2 & _ & Hnews_k).
  destruct (round_other_group consumption_firm capital_firm self self1 news_c)
    as (Hg1 & _ & _); [discriminate|now rewrite E1| |].
  { eapply Forall_impl; [exact Hnews_c|]. cbv beta. tauto. }
  destruct (round_other_group capital_firm consumption_firm self1 self' news_k)
    as (Hg2 & Hd2 & _); [discriminate|now rewrite E2| |].
  { eapply Forall_impl; [exact Hnews_k|]. cbv beta. tauto. }
  assert (Hdead : forall g, dead_firms g self' = []).
  { intros []; [now rewrite Hd2|exact Hdk]. }
  split; [|split].
  - intros g. rewrite <- !deref_get_group, !length_map.
    destruct g; [now rewrite Hg2|now rewrite Hlk, Hg1].
  - intros g a Ha. rewrite <- deref_get_group in Ha.
    apply in_map_iff in Ha as (r & <- & Hr).
    destruct (is_dead (deref self' r)) eqn:Ed.
    + assert (Hin : r ∈ dead_firms g self').
      { apply dead_firms_spec. split; [now apply list_elem_of_In|exact Ed]. }
      rewrite Hdead in Hin. inversion Hin.
    + split.
      * apply Qnot_le_lt. intros Hle.
        assert (is_dead (deref self' r) = true)
          by (apply is_dead_spec; now left).
        congruence.
      * apply Qnot_lt_le. intros Hlt.
        assert (is_dead (deref self' r) = true)
          by (apply is_dead_spec; now right).
        congruence.
  - now apply exit_and_entry_idle.
Qed.

End ExitAndEntryOutcomes.

Lemma exit_and_entry_settles_witness :
  let self := Sample.economy Sample.market in
  let self' := snd (exit_and_entry Sample.new_firm_state Sample.new_machine self) in
  length (live_firms consumption_firm self') = 3%nat
  /\ exit_and_entry Sample.new_firm_state Sample.new_machine self'
     = (Return [[]; []], self').
Proof.
  cbv zeta.
  set (self := Sample.economy Sample.market).
  set (run := exit_and_entry Sample.new_firm_state Sample.new_machine self).
  assert (Hrun : run = (Return [[5%nat]; [0%nat]], snd run))
    by (vm_compute; reflexivity).
  destruct (exit_and_entry_settles Sample.new_firm_state Sample.new_machine
              self (snd run) _ Hrun) as (Hlen & _ & Hidle).
  split; [|exact Hidle].
  rewrite (Hlen consumption_firm). reflexivity.
Defined.

Section ExitAndEntryFailures.

Variable new_firm_state : group -> Firm.t.
Variable new_machine : Machine.t.

Local Abbreviation replace := (replace new_firm_state new_machine).
Local Abbreviation exit_and_entry_group :=
  (exit_and_entry_group new_firm_state new_machine).
Local Abbreviation exit_and_entry := (exit_and_entry new_firm_state new_machine).

(** The state in which [exit_and_entry] ends, completed or not: some
    first part of the dead firms is marked, and at most as many firms
    have been added. *)
Lemma exit_and_entry_any (self self' : ComplexEconomy)
    (o : outcome (list (list ref))) :
  exit_and_entry self = (o, self') ->
  exists ds rest news,
    dead_firms consumption_firm self ++ dead_firms capital_firm self = ds ++ rest
    /\ self' = set_random (random self')
                 (set_agents (mark ds (agents self) ++ news) self)
    /\ (length news <= length ds)%nat
    /\ Forall (fun n => Firm.bankrupt n = false) news.
Proof.
  unfold exit_and_entry, groups. rewrite mapM_cons_run.
  destruct (exit_and_entry_group consumption_firm self)
    as [[picks_c|e] self1] eqn:Ec.
  - destruct (round_news _ _ _ _ _ _ Ec) as (news_c & E1 & Hlen_c & Hnews_c).
    destruct (round_other_group consumption_firm capital_firm self self1 news_c)
      as (_ & Hdead & _); [discriminate|now rewrite E1| |].
    { eapply Forall_impl; [exact Hnews_c|]. cbv beta. tauto. }
    rewrite mapM_cons_run.
    assert (Hk : forall o2 self2,
              exit_and_entry_group capital_firm self1 = (o2, self2) ->
              exists ds rest news,
                dead_firms consumption_firm self ++ dead_firms capital_firm self
                = ds ++ rest
                /\ self2 = set_random (random self2)
                             (set_agents (mark ds (agents self) ++ news) self)
                /\ (length news <= length ds)%nat
                /\ Forall (fun n => Firm.bankrupt n = false) news).
    { intros o2 self2 Ek.
      rewrite (exit_and_entry_group_run new_firm_state new_machine) in Ek.
      apply replace_loop_any in Ek
        as (ds1 & ds2 & news & Hsplit & E2 & Hlen & Hnews);
        [|apply dead_firms_in_range].
      exists (dead_firms consumption_firm self ++ ds1), ds2, (news_c ++ news).
      split; [now rewrite <- Hdead, Hsplit, app_assoc|].
      split; [|split].
      - rewrite E2 at 1.
        assert (Hagents : agents self1
                          = mark (dead_firms consumption_firm self) (agents self)
                            ++ news_c) by (now rewrite E1).
        rewrite Hagents, mark_app, mark_mark, <- app_assoc.
        + rewrite E1. reflexivity.
        + rewrite mark_length.
          pose proof (dead_firms_in_range capital_firm self) as R.
          rewrite <- Hdead, Hsplit in R. apply Forall_app in R. tauto.
      - rewrite !length_app. lia.
      - apply Forall_app. split.
        + eapply Forall_impl; [exact Hnews_c|]. cbv beta. tauto.
        + eapply Forall_impl; [exact Hnews|]. cbv beta. tauto. }
    destruct (exit_and_entry_group capital_firm self1) as [[picks_k|e] self2];
      cbn; intros [= <- <-]; eapply Hk; reflexivity.
  - intros [= <- <-].
    rewrite (exit_and_entry_group_run new_firm_state new_machine) in Ec.
    apply replace_loop_any in Ec
      as (ds1 & ds2 & news & Hsplit & E & Hlen & Hnews);
      [|apply dead_firms_in_range].
    exists ds1, (ds2 ++ dead_firms capital_firm self), news.
    split; [now rewrite Hsplit, app_assoc|].
    split; [exact E|]. split; [exact Hlen|].
    eapply Forall_impl; [exact Hnews|]. cbv beta. tauto.
Qed.

(** X11. However a call of [exit_and_entry] ends, with a result or with
    an exception, it has changed nothing of the model but the agent list
    and the random source; every firm is still in the agent list at its
    place, unchanged, or with its bankruptcy flag set if it was live and
    met the condition of the dead; so a bankrupt firm stays bankrupt and
    is never removed, and every firm that was added is live. *)
Theorem exit_and_entry_keeps_firms (self self' : ComplexEconomy)
    (o : outcome (list (list ref))) :
  exit_and_entry self = (o, self') ->
  self' = set_random (random self') (set_agents (agents self') self)
  /\ (forall i f,
        agents self !! i = Some f ->
        agents self' !! i = Some f
        \/ (Firm.bankrupt f = false /\ is_dead f = true
            /\ agents self' !! i = Some (Firm.set_bankrupt true f)))
  /\ (forall i n,
        (length (agents self) <= i)%nat ->
        agents self' !! i = Some n -> Firm.bankrupt n = false).
Proof.
  intros Hrun.
  apply exit_and_entry_any in Hrun as (ds & rest & news & Hsplit & E & _ & Hnews).
  assert (Hagents : agents self' = mark ds (agents self) ++ news)
    by (rewrite E; reflexivity).
  split; [|split].
  - rewrite Hagents. exact E.
  - intros i f Hi. rewrite Hagents.
    rewrite lookup_app_l
      by (rewrite mark_length; now apply lookup_lt_Some in Hi).
    rewrite mark_lookup, Hi. cbn [fmap option_fmap option_map].
    destruct (contains i ds) eqn:Ec; [right|now left].
    pose proof (contains_dead self i f Hi) as Hd.
    assert (Hin : contains i (ds ++ rest) = true).
    { apply contains_spec, elem_of_app. left. now apply contains_spec. }
    rewrite Hsplit, Hin in Hd. symmetry in Hd.
    apply andb_true_iff in Hd as [Hb Hd]. apply negb_true_iff in Hb. auto.
  - intros i n Hi Hn. rewrite Hagents in Hn.
    rewrite lookup_app_r in Hn by (now rewrite mark_length).
    rewrite Forall_forall in Hnews. apply Hnews.
    eapply list_elem_of_lookup_2. exact Hn.
Qed.

(** X12. A call that ends with [IndexError] is not undone.  When the
    consumption sector has a dead firm and no survivor, the call ends in
    the first pass of the first round: the first dead firm is marked as
    bankrupt, nothing is added, and the capital sector has not been
    looked at.  When the consumption round completes and the capital
    sector has a dead firm and no survivor, the call ends with what the
    consumption round has done and with the first dead capital-good firm
    marked. *)
Theorem exit_and_entry_failure_state (self : ComplexEconomy)
    (d : ref) (ds : list ref) :
  (dead_firms consumption_firm self = d :: ds ->
   alive_firms consumption_firm self = [] ->
   exit_and_entry self
   = (Raise IndexError,
      set_agents (alter (Firm.set_bankrupt true) d (agents self)) self))
  /\ (forall picks self1,
        exit_and_entry_group consumption_firm self = (Return picks, self1) ->
        dead_firms capital_firm self = d :: ds ->
        alive_firms capital_firm self = [] ->
        exit_and_entry self
        = (Raise IndexError,
           set_agents (alter (Firm.set_bankrupt true) d (agents self1)) self1)).
Proof.
  split.
  - intros Hd Ha. unfold exit_and_entry, groups.
    rewrite mapM_cons_run,
      (exit_and_entry_group_run new_firm_state new_machine), Hd, Ha.
    now rewrite (replace_loop_no_survivor new_firm_state new_machine).
  - intros picks self1 Ec Hd Ha. unfold exit_and_entry, groups.
    rewrite mapM_cons_run, Ec, mapM_cons_run.
    destruct (round_news _ _ _ _ _ _ Ec) as (news_c & E1 & _ & Hnews_c).
    destruct (round_other_group consumption_firm capital_firm self self1 news_c)
      as (_ & Hdead & Halive); [discriminate|now rewrite E1| |].
    { eapply Forall_impl; [exact Hnews_c|]. cbv beta. tauto. }
    rewrite (exit_and_entry_group_run new_firm_state new_machine),
      Hdead, Halive, Hd, Ha.
    now rewrite (replace_loop_no_survivor new_firm_state new_machine).
Qed.

End ExitAndEntryFailures.

Lemma exit_and_entry_keeps_firms_witness :
  let self := Sample.economy Sample.market in
  let self' := snd (exit_and_entry Sample.new_firm_state Sample.new_machine self) in
  self' = set_random (random self') (set_agents (agents self') self).
Proof.
  cbv zeta.
  set (self := Sample.economy Sample.market).
  set (run := exit_and_entry Sample.new_firm_state Sample.new_machine self).
  assert (Hrun : run = (fst run, snd run)) by (now destruct run).
  exact (proj1 (exit_and_entry_keeps_firms Sample.new_firm_state
                  Sample.new_machine self (snd run) (fst run) Hrun)).
Defined.

Lemma exit_and_entry_failure_state_witness :
  let self := Sample.economy Sample.exhausted in
  exit_and_entry Sample.new_firm_state Sample.new_machine self
  = (Raise IndexError,
     set_agents (alter (Firm.set_bankrupt true) 0%nat (agents self)) self).
Proof.
  cbv zeta.
  apply (proj2 (exit_and_entry_failure_state Sample.new_firm_state
                  Sample.new_machine (Sample.economy Sample.exhausted)
                  0%nat []) [] (Sample.economy Sample.exhausted));
    vm_compute; reflexivity.
Defined.

(** ** The population that the constructor creates *)

Lemma filter_map_all {A B} (P : B -> bool) (f : A -> B) (l : list A) :
  (forall a, P (f a) = true) -> List.filter P (map f l) = map f l.
Proof.
  intros H. apply forallb_filter_id, forallb_forall.
  intros b Hb. apply in_map_iff in Hb as (a & <- & _). apply H.
Qed.

Lemma filter_map_none {A B} (P : B -> bool) (f : A -> B) (l : list A) :
  (forall a, P (f a) = false) -> List.filter P (map f l) = [].
Proof.
  intros H. induction l as [|a l IH]; [reflexivity|].
  cbn [map List.filter]. now rewrite H.
Qed.

(** The sum of a list of equal terms. *)
Lemma sum_constant (x : Q) (l : list Q) :
  Forall (fun y => y = x) l -> sum l == len l * x.
Proof.
  intros Hl.
  destruct (sum_bounds x x l) as [Hlo Hhi].
  - eapply Forall_impl; [exact Hl|]. cbv beta. intros y ->. split; apply Qle_refl.
  - now apply Qle_antisym.
Qed.

Section Population.

Variable new_firm_state : group -> Firm.t.
Variable new_machine : Machine.t.
Variable parameters : Parameters.t.
Variables initial_wage initial_cpi initial_productivity : Q.
Variables liquid_assets capital_stock : Q.
Variable seed : Random.

Local Abbreviation n_consumption_firms :=
  (Parameters.n_consumption_firms parameters).
Local Abbreviation n_capital_firms := (Parameters.n_capital_firms parameters).
Local Abbreviation construct labour_supply :=
  (__init__ new_firm_state new_machine parameters initial_wage initial_cpi
     initial_productivity liquid_assets capital_stock labour_supply seed).
Local Abbreviation capital_good_firm :=
  (initial_capital_firm new_firm_state new_machine liquid_assets).
Local Abbreviation consumption_good_firm :=
  (initial_consumption_firm new_firm_state parameters liquid_assets
     capital_stock).

Lemma create_capital_firms_agents (share : Q) (l : list nat) :
  forall self : ComplexEconomy,
    fold_left
      (fun self i =>
         schedule_add
           (CapitalGoodFirm new_firm_state new_machine (Z.of_nat i)
              liquid_assets share None) self) l self
    = set_agents (agents self ++ map (capital_good_firm share) l) self.
Proof.
  induction l as [|i l IH]; intros self; cbn [fold_left map].
  - rewrite app_nil_r. now destruct self.
  - rewrite IH. unfold schedule_add. cbn [agents set_agents].
    rewrite <- app_assoc. reflexivity.
Qed.

Lemma create_consumption_firms_agents (share : Q) (n : nat) (self : ComplexEconomy) :
  create_consumption_firms new_firm_state parameters liquid_assets capital_stock
    share n self
  = set_agents (agents self ++ map (consumption_good_firm share) (seq 0 n)) self.
Proof.
  unfold create_consumption_firms.
  assert (H : forall n start sup self,
            (Parameters.fix_supplier parameters = true ->
             sup = Some (Z.max 0 (Z.of_nat start - 1) / 4)%Z) ->
            snd (fold_left
                   (fun (st : option Z * ComplexEconomy) (i : nat) =>
                      let (supplier, self) := st in
                      let supplier :=
                        if Parameters.fix_supplier parameters then
                          if ((Z.of_nat i mod 4 =? 0) && negb (Z.of_nat i =? 0))%Z
                          then Z.succ <$> supplier else supplier
                        else None in
                      let f :=
                        ConsumptionGoodFirm new_firm_state
                          (Z.of_nat i + Parameters.n_capital_firms parameters)
                          liquid_assets (Some capital_stock) share supplier in
                      (supplier, schedule_add f self))
                   (seq start n) (sup, self))
            = set_agents
                (agents self ++ map (consumption_good_firm share) (seq start n))
                self).
  { clear n self. induction n as [|n IH]; intros start sup self Hsup.
    - cbn [seq fold_left map snd]. rewrite app_nil_r. now destruct self.
    - cbn [seq fold_left map]. rewrite IH.
      + unfold schedule_add.
        change (set_agents ?l (set_agents ?l' self)) with (set_agents l self).
        cbn [agents set_agents].
        rewrite <- app_assoc. cbn [app]. do 3 f_equal.
        unfold initial_consumption_firm. f_equal.
        destruct (Parameters.fix_supplier parameters); [|reflexivity].
        rewrite (Hsup eq_refl).
        destruct (Z.eqb_spec (Z.of_nat start mod 4) 0) as [E|E];
          destruct (Z.eqb_spec (Z.of_nat start) 0) as [E0|E0];
          cbn [andb negb fmap option_fmap option_map]; f_equal;
          unfold Z.succ; Z.div_mod_to_equations; lia.
      + intros Hfix. rewrite Hfix, (Hsup Hfix).
        destruct (Z.eqb_spec (Z.of_nat start mod 4) 0) as [E|E];
          destruct (Z.eqb_spec (Z.of_nat start) 0) as [E0|E0];
          cbn [andb negb fmap option_fmap option_map]; f_equal;
          unfold Z.succ; Z.div_mod_to_equations; lia. }
  apply H. reflexivity.
Qed.


End Population.


(** ** When the functions of a stage complete *)

Lemma decimal_div_returns (a b : Q) :
  (exists q, decimal_div a b = Return q) <-> ~ b == 0.
Proof.
  split.
  - intros [q Hq] Hb. destruct (decimal_div_zero a b Hb) as (e & He & _).
    congruence.
  - intros Hb. rewrite decimal_div_nonzero by exact Hb. eauto.
Qed.

Lemma div_len_returns {A} (total : Q) (l : list A) :
  (exists q, div_len total l = Return q) <-> l <> [].
Proof.
  destruct l; cbn; split; try congruence; eauto.
  - now intros [q Hq].
Qed.

Lemma compute_average_price_returns (g : group) (self : ComplexEconomy) :
  (exists p, compute_average_price g false self = Return p)
  <-> live_firms g self <> [].
Proof.
  unfold compute_average_price, mean. cbn [negb].
  rewrite div_len_returns, attrs_get_group.
  split; intros H E; apply H; [now rewrite E|].
  now apply map_eq_nil in E.
Qed.

Lemma comprehension_length {A B} (e : A -> outcome B) (l : list A) (l' : list B) :
  comprehension e l = Return l' -> length l' = length l.
Proof.
  unfold comprehension. revert l'. induction l as [|a l IH]; intros l'.
  - now intros [= <-].
  - cbn [mapM]. cbv beta iota delta [mbind outcome_bind mret outcome_ret].
    destruct (e a); [|discriminate].
    destruct (mapM e l) as [bs|]; [|discriminate].
    intros [= <-]. cbn [length]. f_equal. now apply IH.
Qed.

(** A comprehension over the machines of firms completes exactly when
    every firm has its machine. *)
Lemma comprehension_machine_attr_returns {A} (attr : Machine.t -> A)
    (self : ComplexEconomy) (firms : list ref) :
  (exists l, comprehension (fun f => machine_attr attr (deref self f)) firms
             = Return l)
  <-> Forall (fun f => is_Some (Firm.machine (deref self f))) firms.
Proof.
  unfold comprehension. induction firms as [|f firms IH].
  - split; [constructor|]. intros _. now exists [].
  - cbn [mapM]. cbv beta iota delta [mbind outcome_bind mret outcome_ret].
    unfold machine_attr at 1. rewrite Forall_cons, <- IH.
    destruct (Firm.machine (deref self f)) as [mc|].
    + destruct (mapM _ firms) as [l|e].
      * split; [intros _; split; eauto|eauto].
      * split; [intros [l [=]]|intros [_ [l [=]]]].
    + split; [intros [l [=]]|intros [[mc [=]] _]].
Qed.

Lemma live_firms_machines (g : group) (self : ComplexEconomy) :
  Forall (fun f => is_Some (Firm.machine (deref self f))) (get_group g false self)
  <-> Forall (fun f => is_Some (Firm.machine f)) (live_firms g self).
Proof.
  rewrite <- deref_get_group.
  change (map (deref self)) with (fmap (M:=list) (deref self)).
  now rewrite Forall_fmap.
Qed.

Section Stages.

Variable compute_unit_labour_cost : Machine.t -> ComplexEconomy -> Q.
Variable new_firm_state : group -> Firm.t.
Variable new_machine : Machine.t.

Local Abbreviation interim_functions :=
  (interim_functions compute_unit_labour_cost new_firm_state new_machine).
Local Abbreviation update_avg_ulc := (update_avg_ulc compute_unit_labour_cost).

Lemma update_average_prices_returns (self : ComplexEconomy) :
  (exists self', update_average_prices self = (Return tt, self'))
  <-> live_firms consumption_firm self <> []
      /\ ~ cpi self == 0
      /\ live_firms capital_firm self <> [].
Proof.
  rewrite <- !compute_average_price_returns,
    <- (decimal_div_returns
          (match compute_average_price consumption_firm false self with
           | Return p => p - cpi self
           | Raise _ => 0
           end) (cpi self)).
  unfold update_average_prices. run_method.
  destruct (compute_average_price consumption_firm false self) as [p|e].
  2:{ split; [intros [s [=]]|intros [[q [=]] _]]. }
  destruct (decimal_div _ _) as [delta|e].
  2:{ split; [intros [s [=]]|intros (_ & [q [=]] & _)]. }
  change (compute_average_price capital_firm false (set_cpi _ _))
    with (compute_average_price capital_firm false self).
  destruct (compute_average_price capital_firm false self) as [q|e].
  - split; eauto 10.
  - split; [intros [s [=]]|intros (_ & _ & [q [=]])].
Qed.

Lemma update_avg_ulc_returns (self : ComplexEconomy) :
  (exists self', update_avg_ulc self = (Return tt, self'))
  <-> live_firms capital_firm self <> []
      /\ Forall (fun f => is_Some (Firm.machine f)) (live_firms capital_firm self).
Proof.
  rewrite <- live_firms_machines, <- get_group_nil,
    <- (comprehension_machine_attr_returns
          (fun mc => compute_unit_labour_cost mc self)).
  unfold update_avg_ulc. run_method.
  destruct (comprehension _ _) as [lpcs|e] eqn:E.
  2:{ split; [intros [s [=]]|intros [_ [l [=]]]]. }
  apply comprehension_length in E.
  unfold mean, div_len.
  destruct lpcs as [|x lpcs];
    destruct (get_group capital_firm false self); try discriminate E.
  - split; [intros [s [=]]|intros [H _]; contradiction].
  - split; [|eauto].
    intros _. split; [discriminate|eauto].
Qed.

Lemma update_average_labour_productivity_returns (self : ComplexEconomy) :
  (exists self', update_average_labour_productivity self = (Return tt, self'))
  <-> live_firms capital_firm self <> []
      /\ Forall (fun f => is_Some (Firm.machine f)) (live_firms capital_firm self)
      /\ ~ avg_labour_prod self == 0.
Proof.
  rewrite <- live_firms_machines, <- get_group_nil,
    <- (comprehension_machine_attr_returns
          Machine.labour_productivity_coefficient).
  unfold update_average_labour_productivity. run_method.
  destruct (comprehension _ _) as [lpcs|e] eqn:E.
  2:{ split; [intros [s [=]]|intros (_ & [l [=]] & _)]. }
  unfold div_len.
  destruct (get_group capital_firm false self) as [|f firms].
  { split; [intros [s [=]]|intros [H _]; contradiction]. }
  rewrite <- (decimal_div_returns
                (sum lpcs / len (f :: firms) - avg_labour_prod self)
                (avg_labour_prod self)).
  destruct (decimal_div _ _) as [delta|e].
  - split; [|eauto].
    intros _. split; [discriminate|eauto].
  - split; [intros [s [=]]|intros (_ & _ & [q [=]])].
Qed.

Lemma update_sector_competitiveness_returns (self : ComplexEconomy) :
  exists self', update_sector_competitiveness self = (Return tt, self').
Proof. unfold update_sector_competitiveness. run_method. eauto. Qed.

(** The functions of stage one leave the agents alone, and the first
    two of them the average labour productivity. *)
Lemma stage_one_frame (self self' : ComplexEconomy) (o : outcome unit) :
  (update_average_prices self = (o, self') ->
   agents self' = agents self /\ avg_labour_prod self' = avg_labour_prod self)
  /\ (update_avg_ulc self = (o, self') ->
      agents self' = agents self /\ avg_labour_prod self' = avg_labour_prod self)
  /\ (update_average_labour_productivity self = (o, self') ->
      agents self' = agents self)
  /\ (update_sector_competitiveness self = (o, self') ->
      agents self' = agents self).
Proof.
  unfold update_average_prices, update_avg_ulc,
    update_average_labour_productivity, update_sector_competitiveness.
  run_method.
  split; [|split; [|split]]; split_outcomes; intros [= _ <-];
    try split; reflexivity.
Qed.


(** X15. The functions of stages two and four always complete; those
    of stage three complete exactly when the labour supply, once grown,
    is not zero. *)
Theorem stages_two_to_four_complete (self : ComplexEconomy) :
  (exists self', interim_functions stage_two self = (Return tt, self'))
  /\ ((exists self', interim_functions stage_three self = (Return tt, self'))
      <-> ~ labour_supply self * (1 + labour_supply_growth self) == 0)
  /\ (exists self', interim_functions stage_four self = (Return tt, self')).
Proof.
  unfold interim_functions, stage_functions. cbn [foldr].
  unfold aggregate_investment, update_labour_supply, aggregate_labour_demand,
    update_employment, update_market_wage, update_consumption,
    aggregate_production, aggregate_inventories.
  run_method.
  split; [eauto|]. split; [|eauto].
  cbn [labour_supply unemployment unemployment_rate set_unemployment
         set_employment set_labour_demand set_labour_supply].
  rewrite <- (decimal_div_returns
                (Qmax 0 (labour_supply self * (1 + labour_supply_growth self)
                         - Qmin (sum (attrs Firm.labour_demand self
                                        (all_agents self)))
                                (labour_supply self
                                 * (1 + labour_supply_growth self))))).
  destruct (decimal_div _ _) as [rate|e].
  - split; eauto.
  - split; [intros [s [=]]|intros [q [=]]].
Qed.

(** X16. Whatever their outcome, the functions of stages one to four
    leave the agent list and the random source as they are. *)
Theorem model_functions_keep_agents (s : stage) (self self' : ComplexEconomy)
    (o : outcome unit) :
  s <> stage_five ->
  interim_functions s self = (o, self') ->
  agents self' = agents self /\ random self' = random self.
Proof.
  intros Hs.
  unfold interim_functions, stage_functions.
  destruct s; [| | | |contradiction]; cbn [foldr];
    unfold update_average_prices, update_avg_ulc,
      update_average_labour_productivity, update_sector_competitiveness,
      aggregate_investment, update_labour_supply, aggregate_labour_demand,
      update_employment, update_market_wage, update_consumption,
      aggregate_production, aggregate_inventories;
    run_method; split_outcomes; intros [= _ <-]; split; reflexivity.
Qed.

End Stages.


Lemma model_functions_keep_agents_witness :
  agents (snd (interim_functions Sample.unit_labour_cost Sample.new_firm_state
                 Sample.new_machine stage_three (Sample.economy Sample.market)))
  = Sample.market.
Proof.
  set (run := interim_functions Sample.unit_labour_cost Sample.new_firm_state
                Sample.new_machine stage_three (Sample.economy Sample.market)).
  assert (Hrun : run = (fst run, snd run)) by (now destruct run).
  apply (model_functions_keep_agents Sample.unit_labour_cost
           Sample.new_firm_state Sample.new_machine stage_three
           (Sample.economy Sample.market) (snd run) (fst run));
    [discriminate|exact Hrun].
Defined.

(** ** Rates of change and the wage *)

Lemma decimal_div_value (a b q : Q) :
  decimal_div a b = Return q -> ~ b == 0 /\ q = a / b.
Proof.
  intros Hq. assert (Hb : ~ b == 0) by (apply (decimal_div_returns a b); eauto).
  rewrite decimal_div_nonzero in Hq by exact Hb. split; congruence.
Qed.



(** ** The groups *)

Lemma filter_sublist {A} (P : A -> bool) (l : list A) :
  sublist (List.filter P l) l.
Proof.
  induction l as [|a l IH]; cbn [List.filter]; [constructor|].
  destruct (P a); now constructor.
Qed.


(** ** The weighted average price *)

Lemma weighted_sum_bounds {A} (w x : A -> Q) (lo hi : Q) (l : list A) :
  Forall (fun a => 0 <= w a /\ lo <= x a <= hi) l ->
  lo * sum (map w l) <= sum (map (fun a => w a * x a) l)
  /\ sum (map (fun a => w a * x a) l) <= hi * sum (map w l).
Proof.
  induction l as [|a l IH]; intros Hl; cbn [map].
  - change (sum []) with 0. rewrite !Qmult_0_r. split; apply Qle_refl.
  - apply Forall_cons in Hl as [(Hw & Hlo & Hhi) Hl].
    destruct (IH Hl) as [IH1 IH2]. rewrite !sum_cons.
    assert (H1 : lo * w a <= w a * x a) by nra.
    assert (H2 : w a * x a <= hi * w a) by nra.
    split; lra.
Qed.



(** ** Market shares after exit and entry *)

Lemma sum_filter_split {A} (f : A -> Q) (P : A -> bool) (l : list A) :
  sum (map f l)
  == sum (map f (List.filter P l))
     + sum (map f (List.filter (fun a => negb (P a)) l)).
Proof.
  induction l as [|a l IH]; cbn [map List.filter]; [reflexivity|].
  rewrite sum_cons, IH. destruct (P a); cbn [negb map]; rewrite sum_cons; ring.
Qed.

Lemma sum_nonpos (l : list Q) : Forall (fun x => x <= 0) l -> sum l <= 0.
Proof.
  induction l as [|x l IH]; intros Hl; [apply Qle_refl|].
  apply Forall_cons in Hl as [Hx Hl]. specialize (IH Hl).
  rewrite sum_cons. lra.
Qed.

Lemma sum_positive (l : list Q) : l <> [] -> Forall (fun x => 0 < x) l -> 0 < sum l.
Proof.
  intros Hne Hl. destruct l as [|x l]; [contradiction|].
  apply Forall_cons in Hl as [Hx Hl]. rewrite sum_cons.
  assert (H0 : 0 <= sum l).
  { clear Hne Hx. induction l as [|y l IH]; [apply Qle_refl|].
    apply Forall_cons in Hl as [Hy Hl]. specialize (IH Hl).
    rewrite sum_cons. lra. }
  lra.
Qed.

Lemma map_lookup_total_tail {A} `{Inhabited A} (l news : list A) :
  map (fun i => (l ++ news) !!! i) (seq (length l) (length news)) = news.
Proof.
  apply list_eq. intros i.
  change (map ?f) with (fmap (M:=list) f). rewrite list_lookup_fmap.
  destruct (Nat.lt_ge_cases i (length news)) as [Hi|Hi].
  - rewrite lookup_seq_lt by exact Hi. cbn [fmap option_fmap option_map].
    rewrite lookup_total_app_r by lia.
    replace (length l + i - length l)%nat with i by lia.
    symmetry. now apply list_lookup_lookup_total_lt.
  - rewrite lookup_seq_ge by exact Hi. cbn.
    symmetry. now apply lookup_ge_None_2.
Qed.

Section MarketShares.

Variable new_firm_state : group -> Firm.t.
Variable new_machine : Machine.t.

Local Abbreviation exit_and_entry_group :=
  (exit_and_entry_group new_firm_state new_machine).
Local Abbreviation exit_and_entry := (exit_and_entry new_firm_state new_machine).

(** A completed round leaves the live firms of the other group as they
    are. *)
Lemma round_other_live (g g' : group) (self self1 : ComplexEconomy)
    (picks : list ref) :
  g <> g' ->
  exit_and_entry_group g self = (Return picks, self1) ->
  live_firms g' self1 = live_firms g' self
  /\ dead_firms g' self1 = dead_firms g' self
  /\ (forall r, r ∈ get_group g' false self -> deref self1 r = deref self r).
Proof.
  intros Hg Ec.
  destruct (round_news _ _ _ _ _ _ Ec) as (news & E1 & _ & Hnews).
  assert (Hagents : agents self1 = mark (dead_firms g self) (agents self) ++ news)
    by (now rewrite E1).
  destruct (round_other_group g g' self self1 news)
    as (Hgroup & Hdead & _); [exact Hg|exact Hagents| |].
  { eapply Forall_impl; [exact Hnews|]. cbv beta. tauto. }
  assert (Hderef : forall r, r ∈ get_group g' false self ->
                             deref self1 r = deref self r);
    [|split; [|split; [exact Hdead|exact Hderef]];
      rewrite <- !deref_get_group, Hgroup; apply map_ext_in;
      intros r Hr; now apply Hderef, list_elem_of_In].
  intros r Hr. apply get_group_spec in Hr as (Hr & Hgr & _).
  unfold deref in *. rewrite Hagents.
  rewrite lookup_total_app_l by (now rewrite mark_length).
  rewrite mark_lookup_total by exact Hr.
  destruct (contains r (dead_firms g self)) eqn:Ec'; [|reflexivity].
  apply contains_spec, dead_firms_spec in Ec' as [Ec' _].
  apply get_group_spec in Ec' as (_ & Ec' & _). unfold deref in Ec'. congruence.
Qed.

(** The market shares of a group after its own completed round: those
    of the survivors, and those of the entrants, each positive. *)
Lemma round_own_shares (g : group) (self self1 : ComplexEconomy)
    (picks : list ref) :
  exit_and_entry_group g self = (Return picks, self1) ->
  exists news,
    length news = length (dead_firms g self)
    /\ Forall (fun n => 0 < Firm.market_share n) news
    /\ map Firm.market_share (live_firms g self1)
       = attrs Firm.market_share self (alive_firms g self)
         ++ map Firm.market_share news.
Proof.
  intros Ec.
  destruct (round_news _ _ _ _ _ _ Ec) as (news & E1 & Hlen & Hnews).
  destruct (round_own_group _ _ _ _ _ _ Ec) as (Hgroup & _ & _).
  assert (Hagents : agents self1 = mark (dead_firms g self) (agents self) ++ news)
    by (now rewrite E1).
  exists news. split; [exact Hlen|]. split.
  - eapply Forall_impl; [exact Hnews|]. cbv beta. intros n (_ & _ & Hd).
    apply Qnot_le_lt. intros Hle.
    assert (is_dead n = true) by (apply is_dead_spec; now left). congruence.
  - rewrite <- deref_get_group, Hgroup, !map_app. f_equal.
    + unfold attrs. rewrite map_map. apply map_ext_in.
      intros c Hc. apply list_elem_of_In in Hc.
      pose proof (alive_firms_in_range g self) as R.
      rewrite Forall_forall in R. specialize (R c Hc).
      unfold deref. rewrite Hagents.
      rewrite lookup_total_app_l by (now rewrite mark_length).
      apply mark_attr. now intros b f.
    + f_equal. unfold deref. rewrite Hagents, <- Hlen.
      rewrite <- (mark_length (dead_firms g self) (agents self)).
      apply map_lookup_total_tail.
Qed.

Lemma round_shares_grow (g : group) (self self1 : ComplexEconomy)
    (picks : list ref) :
  exit_and_entry_group g self = (Return picks, self1) ->
  dead_firms g self <> [] ->
  Forall (fun d => Firm.market_share (deref self d) <= 0) (dead_firms g self) ->
  sum (map Firm.market_share (live_firms g self)) == 1 ->
  1 < sum (map Firm.market_share (live_firms g self1)).
Proof.
  intros Ec Hne Hdead Hsum.
  destruct (round_own_shares _ _ _ _ Ec) as (news & Hlen & Hpos & ->).
  rewrite sum_app.
  assert (Hnews : 0 < sum (map Firm.market_share news)).
  { apply sum_positive.
    - intros E. apply map_eq_nil in E. rewrite E in Hlen.
      destruct (dead_firms g self); [contradiction|discriminate].
    - apply Forall_forall. intros x Hx.
      apply list_elem_of_fmap in Hx as (n & -> & Hn).
      rewrite Forall_forall in Hpos. now apply Hpos. }
  assert (Hsplit : sum (map Firm.market_share (live_firms g self))
                   == sum (attrs Firm.market_share self (dead_firms g self))
                      + sum (attrs Firm.market_share self (alive_firms g self))).
  { rewrite <- deref_get_group, map_map.
    rewrite (sum_filter_split _ (fun f => is_dead (deref self f))).
    unfold attrs, dead_firms, alive_firms.
    apply Qplus_comp; [reflexivity|].
    erewrite (List.filter_ext_in _ (fun f => negb (contains f (dead_firms g self))));
      [reflexivity|].
    intros i Hi. cbv beta. f_equal.
    destruct (is_dead (deref self i)) eqn:Ed.
    - symmetry. apply contains_spec, dead_firms_spec.
      split; [now apply list_elem_of_In|exact Ed].
    - destruct (contains i (dead_firms g self)) eqn:Ec'; [|reflexivity].
      apply contains_spec, dead_firms_spec in Ec' as [_ Ec']. congruence. }
  assert (Hd : sum (attrs Firm.market_share self (dead_firms g self)) <= 0).
  { apply sum_nonpos. unfold attrs. apply Forall_forall. intros x Hx.
    apply list_elem_of_fmap in Hx as (r & -> & Hr).
    rewrite Forall_forall in Hdead. now apply Hdead. }
  lra.
Qed.


End MarketShares.


(** ** Employment without labour supply *)

(** X21. With a labour supply of zero [update_employment] fails in its
    division, when employment and unemployment have been assigned: the
    two keep their new values, the unemployment rate and its change keep
    the old ones.  The exception is [InvalidOperation], for [0 / 0],
    when the labour demand is not negative, and [DivisionByZero] when it
    is negative. *)
Theorem update_employment_without_supply (self : ComplexEconomy) :
  labour_supply self == 0 ->
  update_employment self
  = (Raise (if Qle_bool 0 (labour_demand self) then InvalidOperation
            else DivisionByZero),
     set_unemployment
       (Qmax 0 (labour_supply self
                - Qmin (labour_demand self) (labour_supply self)))
       (set_employment (Qmin (labour_demand self) (labour_supply self)) self)).
Proof.
  intros Hls. unfold update_employment. run_method.
  cbn [labour_supply unemployment employment set_unemployment set_employment].
  unfold decimal_div.
  assert (E : Qeq_bool (labour_supply self) 0 = true) by (now apply Qeq_bool_iff).
  rewrite E.
  set (ld := labour_demand self) in *. set (ls := labour_supply self) in *.
  destruct (Qle_bool 0 ld) eqn:Eld.
  - apply Qle_bool_iff in Eld.
    assert (Hu : Qmax 0 (ls - Qmin ld ls) == 0).
    { rewrite (Q.min_r ld ls) by lra. apply Q.max_l. lra. }
    apply Qeq_bool_iff in Hu. now rewrite Hu.
  - assert (Hld : ld < 0).
    { apply Qnot_le_lt. intros H. apply Qle_bool_iff in H. congruence. }
    assert (Hu : ~ Qmax 0 (ls - Qmin ld ls) == 0).
    { rewrite (Q.min_l ld ls) by lra. rewrite Q.max_r by lra. lra. }
    destruct (Qeq_bool (Qmax 0 (ls - Qmin ld ls)) 0) eqn:Eu; [|reflexivity].
    apply Qeq_bool_iff in Eu. contradiction.
Qed.

Lemma update_employment_without_supply_witness :
  fst (update_employment (set_labour_supply 0 (Sample.economy [])))
  = Raise InvalidOperation.
Proof.
  rewrite (update_employment_without_supply
             (set_labour_supply 0 (Sample.economy []))); reflexivity.
Defined.

(** ** The random source in exit and entry *)

Section Draws.

Variable new_firm_state : group -> Firm.t.
Variable new_machine : Machine.t.

Local Abbreviation exit_and_entry := (exit_and_entry new_firm_state new_machine).

(** X22. A completed [exit_and_entry] has drawn from the random source
    once for each dead firm, and not at all when no firm is dead; it has
    added one firm for each dead firm. *)
Theorem exit_and_entry_draws (self self' : ComplexEconomy)
    (picks : list (list ref)) :
  exit_and_entry self = (Return picks, self') ->
  let dead := dead_firms consumption_firm self ++ dead_firms capital_firm self in
  random self' = advance (length dead) (random self)
  /\ length (agents self') = (length (agents self) + length dead)%nat
  /\ (dead = [] -> self' = self).
Proof.
  intros Hrun dead.
  apply (exit_and_entry_inv new_firm_state new_machine) in Hrun
    as (news & -> & Hlen & _).
  fold dead in Hlen |- *. cbn [random agents set_random set_agents].
  split; [reflexivity|]. split.
  - rewrite length_app, mark_length. lia.
  - intros E. rewrite E in Hlen |- *. destruct news; [|discriminate].
    cbn [length mark fold_left app].
    assert (E0 : advance 0 (random self) = random self)
      by (now destruct (random self)).
    rewrite E0, app_nil_r. now destruct self.
Qed.

End Draws.

Lemma exit_and_entry_draws_witness :
  let self := Sample.economy Sample.market in
  position
    (random (snd (exit_and_entry Sample.new_firm_state Sample.new_machine self)))
  = 2%nat.
Proof.
  cbv zeta.
  set (self := Sample.economy Sample.market).
  set (run := exit_and_entry Sample.new_firm_state Sample.new_machine self).
  assert (Hrun : run = (Return [[5%nat]; [0%nat]], snd run))
    by (vm_compute; reflexivity).
  destruct (exit_and_entry_draws Sample.new_firm_state Sample.new_machine
              self (snd run) _ Hrun) as (-> & _).
  reflexivity.
Defined.
